(** * YUV 4:2:0 to ARGB conversion (yuv_converter.cpp)

    A shallow embedding of [clamp] and of the JNI entry point
    [Java_com_signaturelens_core_native_NativeProcessor_convertYuvToRgb],
    together with the properties of the pixel converter.

    Modelling choices, all taken from the C++ source:
    - [int] / [jint] values are mathematical integers; an arithmetic
      operation of the source whose result leaves the 32-bit range is
      undefined behaviour and makes the run fail ([None]);
    - [float] arithmetic is IEEE-754 binary32 (24 bits of precision, round to
      nearest even), through the Standard Library's [SpecFloat];
    - memory is a finite map from blocks to arrays of cells; a pointer is a
      block and an offset, a read or a write outside the block is undefined
      behaviour ([None]);
    - the observable effects of a run (stores and log entries) are recorded
      in a trace next to the heap. *)

From Stdlib Require Import ZArith Lia.
From Stdlib Require Import Floats.SpecFloat.
From stdpp Require Import base option list list_numbers gmap strings.

Local Open Scope Z_scope.

(** ** Binary32 arithmetic *)

Module F32.

Definition prec : Z := 24.
Definition emax : Z := 128.

(** Conversion of an [int] to [float] (round to nearest even; exact below
    2^24). *)
Definition of_int (z : Z) : spec_float := binary_normalize prec emax z 0 false.

(** The [float] nearest to the decimal literal [num / den]: correctly
    rounded division of two exactly representable integers. *)
Definition lit (num den : Z) : spec_float :=
  SFdiv prec emax (of_int num) (of_int den).

Definition mul (a b : spec_float) : spec_float := SFmul prec emax a b.

(** The cast [(int) f]: truncation toward zero.  Infinities and NaN (for
    which the cast is undefined) do not occur on the values the converter
    handles and are sent to 0. *)
Definition to_int (f : spec_float) : Z :=
  match f with
  | S754_finite s m e =>
      let a := match e with
               | Zneg p => Z.quot (Zpos m) (Z.pow_pos 2 p)
               | _ => Zpos m * 2 ^ e
               end in
      if s then - a else a
  | _ => 0
  end.

End F32.

(** ** 32-bit [int] arithmetic with overflow as undefined behaviour *)

Definition INT_MIN : Z := - 2 ^ 31.
Definition INT_MAX : Z := 2 ^ 31 - 1.

Definition in_int (z : Z) : Prop := INT_MIN ≤ z ≤ INT_MAX.

Definition int_result (z : Z) : option Z :=
  if decide (in_int z) then Some z else None.

Definition imul (a b : Z) : option Z := int_result (a * b).
Definition iadd (a b : Z) : option Z := int_result (a + b).

(** Conversion of an [int] to [uint32_t]. *)
Definition to_uint32 (z : Z) : Z := z mod 2 ^ 32.

(** ** The colour transform *)

(** [inline int clamp(int v)] *)
Definition clamp (v : Z) : Z :=
  if v <? 0 then 0
  else if v >? 255 then 255
  else v.

(** The four [float] literals of the source. *)
Definition c1_402 : spec_float := F32.lit 1402 1000.
Definition c0_344136 : spec_float := F32.lit 344136 1000000.
Definition c0_714136 : spec_float := F32.lit 714136 1000000.
Definition c1_772 : spec_float := F32.lit 1772 1000.

(** [(int)(c * v)] for a [float] constant [c] and an [int] [v]: [v] is
    converted to [float], the product is rounded to binary32, the cast
    truncates. *)
Definition trunc_mul (c : spec_float) (v : Z) : Z :=
  F32.to_int (F32.mul c (F32.of_int v)).

Record rgb := RGB { red : Z; green : Z; blue : Z }.

(** Lines 46-52: the three samples as read from the planes ([uint8_t]
    promoted to [int]) to the three clamped channels. *)
Definition yuv_to_rgb (bY bU bV : Z) : rgb :=
  let Y := Z.land bY 255 in
  let U := Z.land bU 255 - 128 in
  let V := Z.land bV 255 - 128 in
  let R := clamp (Y + trunc_mul c1_402 V) in
  let G := clamp (Y - trunc_mul c0_344136 U - trunc_mul c0_714136 V) in
  let B := clamp (Y + trunc_mul c1_772 U) in
  RGB R G B.

(** The right-hand side of line 54, [(0xFF << 24) | (R << 16) | (G << 8) | B],
    computed on [int] ([0xFF << 24] is the negative [int] with bit pattern
    0xFF000000) and converted to [uint32_t] by the assignment. *)
Definition pack_argb (c : rgb) : Z :=
  to_uint32
    (Z.lor (Z.lor (Z.lor (- 2 ^ 24) (Z.shiftl (red c) 16))
                  (Z.shiftl (green c) 8))
           (blue c)).

(** ** Memory, pointers and effects *)

Definition block := positive.
Bind Scope positive_scope with block.

Record ptr := Ptr { blk : block; ofs : Z }.

Abbreviation mem := (gmap block (list Z)).

(** [p[i]] as an rvalue. *)
Definition load (m : mem) (p : ptr) (i : Z) : option Z :=
  cells ← m !! blk p;
  if decide (0 ≤ ofs p + i) then cells !! Z.to_nat (ofs p + i) else None.

Inductive event :=
  | EvStore (b : block) (i : Z) (v : Z)
  | EvLog (prio : Z) (tag msg : string).

Record state := State { heap : mem; trace : list event }.

(** [p[i] = v] *)
Definition store (st : state) (p : ptr) (i : Z) (v : Z) : option state :=
  cells ← heap st !! blk p;
  if decide (0 ≤ ofs p + i < Z.of_nat (length cells)) then
    Some {| heap := <[blk p := <[Z.to_nat (ofs p + i) := v]> cells]> (heap st);
            trace := trace st ++ [EvStore (blk p) (ofs p + i) v] |}
  else None.

Definition ANDROID_LOG_ERROR : Z := 6.
Definition TAG : string := "SignatureLensNative".

(** The macro [LOGE]. *)
Definition LOGE (msg : string) (st : state) : state :=
  {| heap := heap st; trace := trace st ++ [EvLog ANDROID_LOG_ERROR TAG msg] |}.

(** The part of the JNI environment the converter uses:
    [GetDirectBufferAddress] yields the address of a direct buffer and null
    for every other object. *)
Definition jobject := positive.
Bind Scope positive_scope with jobject.

Record JNIEnv := { GetDirectBufferAddress : jobject → option ptr }.

(** The stores and the log entries of a trace. *)
Definition writes_of (t : list event) : list (block * Z) :=
  omap (λ e, match e with EvStore b i _ => Some (b, i) | EvLog _ _ _ => None end) t.

Definition logs_of (t : list event) : list (Z * string * string) :=
  omap (λ e, match e with EvLog p t m => Some (p, t, m) | EvStore _ _ _ => None end) t.

(** ** The converter *)

(** [for (int i = lo; i < lo + n; i++) body], for [n] iterations. *)
Fixpoint for_loop (body : Z → state → option state) (n : nat) (i : Z)
    (st : state) : option state :=
  match n with
  | O => Some st
  | S n' => st' ← body i st; for_loop body n' (i + 1) st'
  end.

(** [for (int i = 0; i < hi; i++) body] *)
Definition for_range (hi : Z) (body : Z → state → option state)
    (st : state) : option state :=
  for_loop body (Z.to_nat hi) 0 st.

Section Converter.

Variables (srcY srcU srcV dst : ptr).
Variables (width height yRowStride uvRowStride uvPixelStride : Z).

(** Lines 41-52 and the right-hand side of line 54: the value of the
    pixel at column [x] of row [y]. *)
Definition pixel_argb (m : mem) (y x : Z) : option Z :=
  yIdx ← imul y yRowStride ≫= λ t, iadd t x;
  let uvX := Z.quot x 2 in
  let uvY := Z.quot y 2 in
  uvIdx ← (a ← imul uvY uvRowStride; b ← imul uvX uvPixelStride; iadd a b);
  bY ← load m srcY yIdx;
  bU ← load m srcU uvIdx;
  bV ← load m srcV uvIdx;
  Some (pack_argb (yuv_to_rgb bY bU bV)).

(** The body of the inner loop. *)
Definition convert_pixel (y x : Z) (st : state) : option state :=
  v ← pixel_argb (heap st) y x;
  oIdx ← imul y width ≫= λ t, iadd t x;
  store st dst oIdx v.

(** Lines 39-56. *)
Definition convert_loops (st : state) : option state :=
  for_range height (λ y, for_range width (λ x, convert_pixel y x)) st.

End Converter.

(** The entry point.  [None] is undefined behaviour; [Some st'] is a normal
    return in state [st']. *)
Definition Java_com_signaturelens_core_native_NativeProcessor_convertYuvToRgb
    (env : JNIEnv) (yBuffer uBuffer vBuffer : jobject)
    (width height yRowStride uvRowStride uvPixelStride : Z)
    (outBuffer : jobject) (st : state) : option state :=
  let srcY := GetDirectBufferAddress env yBuffer in
  let srcU := GetDirectBufferAddress env uBuffer in
  let srcV := GetDirectBufferAddress env vBuffer in
  let dst := GetDirectBufferAddress env outBuffer in
  match srcY, srcU, srcV, dst with
  | Some srcY, Some srcU, Some srcV, Some dst =>
      convert_loops srcY srcU srcV dst
        width height yRowStride uvRowStride uvPixelStride st
  | _, _, _, _ => Some (LOGE "Invalid buffers" st)
  end.

Abbreviation convertYuvToRgb :=
  Java_com_signaturelens_core_native_NativeProcessor_convertYuvToRgb.

(** ** The transform as the specification words it

    [clamp(v) = max(0, min(255, v))]; the conversion formulas with the
    decimal constants and truncation toward zero of the product. *)

Definition clamp_spec (v : Z) : Z := Z.max 0 (Z.min 255 v).

(** [trunc (num / den * v)], truncation toward zero of the exact product. *)
Definition trunc_spec (num den v : Z) : Z := Z.quot (num * v) den.

(** Rounding of the exact product to the nearest integer (half away from
    zero), which the converter does [not] use. *)
Definition round_spec (num den v : Z) : Z :=
  Z.quot (2 * num * v + Z.sgn v * den) (2 * den).

Definition spec_R (Y V : Z) : Z := clamp_spec (Y + trunc_spec 1402 1000 V).
Definition spec_G (Y U V : Z) : Z :=
  clamp_spec (Y - trunc_spec 344136 1000000 U - trunc_spec 714136 1000000 V).
Definition spec_B (Y U : Z) : Z := clamp_spec (Y + trunc_spec 1772 1000 U).

(** The channels before clamping, as the source computes them. *)
Definition raw_R (Y V : Z) : Z := Y + trunc_mul c1_402 V.
Definition raw_G (Y U V : Z) : Z :=
  Y - trunc_mul c0_344136 U - trunc_mul c0_714136 V.
Definition raw_B (Y U : Z) : Z := Y + trunc_mul c1_772 U.

(** ** Vocabulary of the statements *)

(** The four bytes of a packed pixel. *)
Definition alpha_of (p : Z) : Z := Z.shiftr p 24.
Definition red_of (p : Z) : Z := Z.land (Z.shiftr p 16) 255.
Definition green_of (p : Z) : Z := Z.land (Z.shiftr p 8) 255.
Definition blue_of (p : Z) : Z := Z.land p 255.

(** A channel value that is at neither clamp bound. *)
Definition unsaturated (c : Z) : Prop := 0 < c < 255.

(** [n] cells are addressable from [p]. *)
Definition addressable (m : mem) (p : ptr) (n : Z) : Prop :=
  ∀ i, 0 ≤ i < n → is_Some (load m p i).

(** The four buffer objects resolve to four addresses. *)
Definition resolves (env : JNIEnv) (yBuffer uBuffer vBuffer outBuffer : jobject)
    (srcY srcU srcV dst : ptr) : Prop :=
  GetDirectBufferAddress env yBuffer = Some srcY ∧
  GetDirectBufferAddress env uBuffer = Some srcU ∧
  GetDirectBufferAddress env vBuffer = Some srcV ∧
  GetDirectBufferAddress env outBuffer = Some dst.

(** The output lies in a block of its own: output and inputs are disjoint
    memory. *)
Definition disjoint_out (srcY srcU srcV dst : ptr) : Prop :=
  blk dst ≠ blk srcY ∧ blk dst ≠ blk srcU ∧ blk dst ≠ blk srcV.

Section Vocabulary.

Variables (srcY srcU srcV dst : ptr).
Variables (width height yRowStride uvRowStride uvPixelStride : Z).

(** The two sample indices of pixel [(x, y)]. *)
Definition yIdx_of (y x : Z) : Z := y * yRowStride + x.
Definition uvIdx_of (y x : Z) : Z :=
  Z.quot y 2 * uvRowStride + Z.quot x 2 * uvPixelStride.

(** No index computation of lines 41-44 overflows. *)
Definition idx_in_int (y x : Z) : Prop :=
  in_int (y * yRowStride) ∧ in_int (yIdx_of y x) ∧
  in_int (Z.quot y 2 * uvRowStride) ∧ in_int (Z.quot x 2 * uvPixelStride) ∧
  in_int (uvIdx_of y x).

(** Valid calls.  The caller's obligations: a positive size, a luma row
    stride of at least the width, a chroma pixel stride of at least one
    sample (1 for planar, 2 for interleaved chroma), a chroma row stride of
    at least [ceil(width/2)] chroma samples, planes addressable over
    [rowStride * rows] samples and an output addressable over
    [width * height] slots.  The plane sizes fit an [int], as the capacity
    of a buffer does. *)
Record valid_call (m : mem) : Prop := {
  valid_width : 0 < width;
  valid_height : 0 < height;
  valid_yRowStride : width ≤ yRowStride;
  valid_uvPixelStride : 1 ≤ uvPixelStride;
  valid_uvRowStride : (width + 1) / 2 * uvPixelStride ≤ uvRowStride;
  valid_srcY : addressable m srcY (yRowStride * height);
  valid_srcU : addressable m srcU (uvRowStride * ((height + 1) / 2));
  valid_srcV : addressable m srcV (uvRowStride * ((height + 1) / 2));
  valid_dst : addressable m dst (width * height);
  valid_sizes :
    yRowStride * height ≤ INT_MAX ∧
    uvRowStride * ((height + 1) / 2) ≤ INT_MAX ∧
    width * height ≤ INT_MAX;
}.

(** The loop invariant, relative to the initial state [st0].  After the
    first [k] pixels in row-major order: every block but the output's is as
    in the initial state; the output cells outside [0 .. k) are as in the
    initial state; the cell of each pixel converted so far holds the value
    computed from the initial planes; the run has appended one store per
    pixel, in order, and no log entry. *)
Variable st0 : state.

Record Inv (k : Z) (s : state) : Prop := {
  inv_frame : ∀ b, b ≠ blk dst → heap s !! b = heap st0 !! b;
  inv_rest : ∀ j, ¬ (0 ≤ j < k) → load (heap s) dst j = load (heap st0) dst j;
  inv_done : ∀ y x, 0 ≤ y → 0 ≤ x < width → y * width + x < k →
    ∃ v, pixel_argb srcY srcU srcV yRowStride uvRowStride uvPixelStride
           (heap st0) y x = Some v ∧
         load (heap s) dst (y * width + x) = Some v;
  inv_trace : ∃ new, trace s = trace st0 ++ new ∧
    writes_of new = (λ j, (blk dst, ofs dst + j)) <$> seqZ 0 k ∧
    logs_of new = [];
}.

End Vocabulary.

(** ** Concrete frames

    Objects 1 to 4 are direct buffers, each in a block of its own; every
    other object has no direct address. *)

Definition direct_env : JNIEnv :=
  {| GetDirectBufferAddress := λ o,
       if (o <=? 4)%positive then Some (Ptr o 0) else None |}.

Definition frame_heap (Y U V out : list Z) : mem :=
  <[1%positive := Y]> (<[2%positive := U]> (<[3%positive := V]>
    (<[4%positive := out]> ∅))).

(** The 2x2 frame of the concrete scenario, over any previous contents of
    the output buffer. *)
Definition gray_state (o0 o1 o2 o3 : Z) (t : list event) : state :=
  State (frame_heap [16; 16; 16; 16] [128] [128] [o0; o1; o2; o3]) t.

(** Two 4x4 frames that differ in [V[0]] only: a bright and a dark sample
    share the first chroma pair. *)
Definition luma4 : list Z :=
  [250; 100; 60; 60; 90; 200; 60; 60; 60; 60; 60; 60; 60; 60; 60; 60].

Definition neutral_state : state :=
  State (frame_heap luma4 [128; 128; 128; 128] [128; 128; 128; 128]
           (replicate 16 0)) [].

Definition reddish_state : state :=
  State (frame_heap luma4 [128; 128; 128; 128] [255; 128; 128; 128]
           (replicate 16 0)) [].

(** The first frame with the luma sample of pixel [(1, 0)] changed. *)
Definition dimmed_state : state :=
  State (frame_heap (<[1%nat := 30]> luma4) [128; 128; 128; 128]
           [128; 128; 128; 128] (replicate 16 0)) [].

(** ** Defined behaviour and pointer arithmetic *)

(** The stores of the values [out 0], ..., [out (n-1)] into the slots
    [dst[0]], ..., [dst[n-1]], in this order. *)
Definition slot_stores (dst : ptr) (out : Z → Z) (n : Z) : list event :=
  (λ k, EvStore (blk dst) (ofs dst + k) (out k)) <$> seqZ 0 n.

(** The 32-bit two's complement [int] with the bit pattern of [z]. *)
Definition wrap_int (z : Z) : Z := (z + 2 ^ 31) mod 2 ^ 32 - 2 ^ 31.

(** [p + k] *)
Definition ptr_add (p : ptr) (k : Z) : ptr := Ptr (blk p) (ofs p + k).

(** Two heaps in which the same cells are addressable. *)
Definition same_shape (m1 m2 : mem) : Prop :=
  ∀ q j, is_Some (load m1 q j) ↔ is_Some (load m2 q j).

(** The two heaps hold the same value in every cell. *)
Definition same_cells (m1 m2 : mem) : Prop :=
  ∀ q j, load m1 q j = load m2 q j.

(** A [float] whose cast to [int] is defined: a finite number whose
    truncation fits an [int]. *)
Definition cast_defined (f : spec_float) : Prop :=
  match f with
  | S754_finite _ _ _ | S754_zero _ => in_int (F32.to_int f)
  | _ => False
  end.

Section Defined.

Variables (srcY srcU srcV dst : ptr).
Variables (width height yRowStride uvRowStride uvPixelStride : Z).

(** What the body of the inner loop needs at pixel [(x, y)]: index
    computations within [int], three addressable samples and an addressable
    output slot. *)
Definition pixel_defined (m : mem) (y x : Z) : Prop :=
  idx_in_int yRowStride uvRowStride uvPixelStride y x ∧
  is_Some (load m srcY (yIdx_of yRowStride y x)) ∧
  is_Some (load m srcU (uvIdx_of uvRowStride uvPixelStride y x)) ∧
  is_Some (load m srcV (uvIdx_of uvRowStride uvPixelStride y x)) ∧
  in_int (y * width) ∧ in_int (y * width + x) ∧
  is_Some (load m dst (y * width + x)).

Definition frame_defined (m : mem) : Prop :=
  ∀ y x, 0 ≤ y < height → 0 ≤ x < width → pixel_defined m y x.

(** Planes that reach exactly to the last sample read: no padding after
    the last row, strides that are only non-negative. *)
Record tight_call (m : mem) : Prop := {
  tight_width : 0 < width;
  tight_height : 0 < height;
  tight_yRowStride : 0 ≤ yRowStride;
  tight_uvRowStride : 0 ≤ uvRowStride;
  tight_uvPixelStride : 0 ≤ uvPixelStride;
  tight_srcY : addressable m srcY ((height - 1) * yRowStride + width);
  tight_srcU : addressable m srcU
    (((height + 1) / 2 - 1) * uvRowStride
     + ((width + 1) / 2 - 1) * uvPixelStride + 1);
  tight_srcV : addressable m srcV
    (((height + 1) / 2 - 1) * uvRowStride
     + ((width + 1) / 2 - 1) * uvPixelStride + 1);
  tight_dst : addressable m dst (width * height);
  tight_sizes :
    (height - 1) * yRowStride + width ≤ INT_MAX ∧
    ((height + 1) / 2 - 1) * uvRowStride
    + ((width + 1) / 2 - 1) * uvPixelStride + 1 ≤ INT_MAX ∧
    width * height ≤ INT_MAX;
}.

End Defined.

(** ** Further concrete frames *)

(** A 2x2 frame whose luma plane is one sample short. *)
Definition short_state : state :=
  State (frame_heap [16; 16; 16] [128] [128] [0; 0; 0; 0]) [].

(** A 4x2 frame with interleaved chroma: the two chroma planes lie in one
    block, [V] one sample after [U], with pixel stride 2; the [V] plane
    holds one sample less than [uvRowStride * rows]. *)
Definition interleaved_env : JNIEnv :=
  {| GetDirectBufferAddress := λ o,
       match o with
       | 1%positive => Some (Ptr 1 0)
       | 2%positive => Some (Ptr 2 0)
       | 3%positive => Some (Ptr 2 1)
       | 4%positive => Some (Ptr 4 0)
       | _ => None
       end |}.

Definition interleaved_state : state :=
  State (<[1%positive := [50; 60; 70; 80; 90; 100; 110; 120]]>
          (<[2%positive := [128; 255; 0; 128]]>
            (<[4%positive := replicate 8 0]> ∅))) [].

(** Two 2x2 frames with [yRowStride = 3] that differ in the padding column
    only. *)
Definition padded_state (a b : Z) : state :=
  State (frame_heap [16; 200; a; 90; 35; b] [100] [180] [0; 0; 0; 0]) [].

(** The objects 5 to 8 are the buffers of objects 1 to 4 from the third
    row of a 4-wide frame on: luma and output advanced by two rows, chroma
    by one row. *)
Definition sliced_env : JNIEnv :=
  {| GetDirectBufferAddress := λ o,
       match o with
       | 5%positive => Some (Ptr 1 8)
       | 6%positive => Some (Ptr 2 2)
       | 7%positive => Some (Ptr 3 2)
       | 8%positive => Some (Ptr 4 8)
       | _ => GetDirectBufferAddress direct_env o
       end |}.

(** * Properties of the colour transform *)

Lemma clamp_max_min v : clamp v = clamp_spec v.
Proof.
  unfold clamp, clamp_spec.
  destruct (Z.ltb_spec v 0); [lia|].
  destruct (Z.gtb_spec v 255); lia.
Qed.

Lemma clamp_range v : 0 ≤ clamp v ≤ 255.
Proof. rewrite clamp_max_min. unfold clamp_spec. lia. Qed.

Lemma clamp_id v : 0 ≤ v ≤ 255 → clamp v = v.
Proof. rewrite clamp_max_min. unfold clamp_spec. lia. Qed.

Lemma clamp_high v : 255 < v → clamp v = 255.
Proof. rewrite clamp_max_min. unfold clamp_spec. lia. Qed.

Lemma clamp_low v : v < 0 → clamp v = 0.
Proof. rewrite clamp_max_min. unfold clamp_spec. lia. Qed.

(** The literals of the source as binary32 numbers. *)
Lemma literals_binary32 :
  c1_402 = S754_finite false 11760828 (-23) ∧
  c0_344136 = S754_finite false 11547288 (-25) ∧
  c0_714136 = S754_finite false 11981214 (-24) ∧
  c1_772 = S754_finite false 14864613 (-23).
Proof. repeat split; vm_compute; reflexivity. Qed.

(** A property of the centred chroma values is settled by running it on
    the 256 values. *)
Lemma chroma_range_ind (P : Z → bool) :
  forallb P (seqZ (-128) 256) = true →
  ∀ v, -128 ≤ v ≤ 127 → P v = true.
Proof.
  intros Hall v Hv.
  rewrite forallb_forall in Hall. apply Hall.
  apply list_elem_of_In, elem_of_seqZ. lia.
Qed.

(** On the whole chroma range the truncated binary32 product is the
    truncation of the exact decimal product: the rounding of the literal
    and of the product never crosses an integer. *)
Lemma trunc_mul_exact v :
  -128 ≤ v ≤ 127 →
  trunc_mul c1_402 v = trunc_spec 1402 1000 v ∧
  trunc_mul c0_344136 v = trunc_spec 344136 1000000 v ∧
  trunc_mul c0_714136 v = trunc_spec 714136 1000000 v ∧
  trunc_mul c1_772 v = trunc_spec 1772 1000 v.
Proof.
  intros Hv.
  pose (P := λ v,
    (trunc_mul c1_402 v =? trunc_spec 1402 1000 v) &&
    (trunc_mul c0_344136 v =? trunc_spec 344136 1000000 v) &&
    (trunc_mul c0_714136 v =? trunc_spec 714136 1000000 v) &&
    (trunc_mul c1_772 v =? trunc_spec 1772 1000 v)).
  assert (HP : P v = true).
  { apply chroma_range_ind; [vm_compute; reflexivity | exact Hv]. }
  unfold P in HP.
  repeat (apply andb_prop in HP; destruct HP as [HP ?]).
  repeat split; by apply Z.eqb_eq.
Qed.

(** Bounds of the four truncated products. *)
Lemma trunc_mul_bounds v :
  -128 ≤ v ≤ 127 →
  -179 ≤ trunc_mul c1_402 v ≤ 178 ∧
  -44 ≤ trunc_mul c0_344136 v ≤ 43 ∧
  -91 ≤ trunc_mul c0_714136 v ≤ 90 ∧
  -226 ≤ trunc_mul c1_772 v ≤ 225.
Proof.
  intros Hv.
  pose (P := λ v,
    (-179 <=? trunc_mul c1_402 v) && (trunc_mul c1_402 v <=? 178) &&
    (-44 <=? trunc_mul c0_344136 v) && (trunc_mul c0_344136 v <=? 43) &&
    (-91 <=? trunc_mul c0_714136 v) && (trunc_mul c0_714136 v <=? 90) &&
    (-226 <=? trunc_mul c1_772 v) && (trunc_mul c1_772 v <=? 225)).
  assert (HP : P v = true).
  { apply chroma_range_ind; [vm_compute; reflexivity | exact Hv]. }
  unfold P in HP.
  repeat (apply andb_prop in HP; destruct HP as [HP ?]).
  repeat split; by apply Z.leb_le.
Qed.

Lemma byte_mask_mod b : Z.land b 255 = b mod 256.
Proof. apply (Z.land_ones b 8). lia. Qed.

Lemma byte_mask_range b : 0 ≤ Z.land b 255 ≤ 255.
Proof. rewrite byte_mask_mod. pose proof (Z.mod_pos_bound b 256). lia. Qed.

Lemma byte_mask_id b : 0 ≤ b ≤ 255 → Z.land b 255 = b.
Proof. intros Hb. rewrite byte_mask_mod. apply Z.mod_small. lia. Qed.

(** The source's channels are the clamped raw channels. *)
Lemma yuv_to_rgb_raw bY bU bV :
  let Y := Z.land bY 255 in
  let U := Z.land bU 255 - 128 in
  let V := Z.land bV 255 - 128 in
  yuv_to_rgb bY bU bV = RGB (clamp (raw_R Y V)) (clamp (raw_G Y U V)) (clamp (raw_B Y U)).
Proof. reflexivity. Qed.

(** No [int] operation of lines 46-52 overflows. *)
Lemma raw_channels_in_int bY bU bV :
  let Y := Z.land bY 255 in
  let U := Z.land bU 255 - 128 in
  let V := Z.land bV 255 - 128 in
  in_int (raw_R Y V) ∧ in_int (Y - trunc_mul c0_344136 U) ∧
  in_int (raw_G Y U V) ∧ in_int (raw_B Y U).
Proof.
  intros Y U V.
  pose proof (byte_mask_range bY). pose proof (byte_mask_range bU).
  pose proof (byte_mask_range bV).
  assert (HU : -128 ≤ U ≤ 127) by (subst U; lia).
  assert (HV : -128 ≤ V ≤ 127) by (subst V; lia).
  pose proof (trunc_mul_bounds U HU) as (? & ? & ? & ?).
  pose proof (trunc_mul_bounds V HV) as (? & ? & ? & ?).
  unfold in_int, INT_MIN, INT_MAX, raw_R, raw_G, raw_B.
  change (2 ^ 31) with 2147483648. lia.
Qed.

(** The source's channels agree with the formulas of the specification. *)
Lemma yuv_to_rgb_spec bY bU bV :
  let Y := Z.land bY 255 in
  let U := Z.land bU 255 - 128 in
  let V := Z.land bV 255 - 128 in
  yuv_to_rgb bY bU bV = RGB (spec_R Y V) (spec_G Y U V) (spec_B Y U).
Proof.
  intros Y U V.
  pose proof (byte_mask_range bU). pose proof (byte_mask_range bV).
  assert (HU : -128 ≤ U ≤ 127) by (subst U; lia).
  assert (HV : -128 ≤ V ≤ 127) by (subst V; lia).
  destruct (trunc_mul_exact U HU) as (_ & HU1 & _ & HU3).
  destruct (trunc_mul_exact V HV) as (HV0 & _ & HV2 & _).
  unfold yuv_to_rgb, spec_R, spec_G, spec_B. fold Y U V.
  rewrite !clamp_max_min, HU1, HU3, HV0, HV2. reflexivity.
Qed.

(** With centred chroma 0 the luma passes through. *)
Lemma spec_neutral Y :
  0 ≤ Y ≤ 255 → spec_R Y 0 = Y ∧ spec_G Y 0 0 = Y ∧ spec_B Y 0 = Y.
Proof.
  intros HY. unfold spec_R, spec_G, spec_B, trunc_spec, clamp_spec.
  rewrite !Z.mul_0_r.
  change (Z.quot 0 1000) with 0. change (Z.quot 0 1000000) with 0. lia.
Qed.

Lemma yuv_to_rgb_range bY bU bV :
  let c := yuv_to_rgb bY bU bV in
  0 ≤ red c ≤ 255 ∧ 0 ≤ green c ≤ 255 ∧ 0 ≤ blue c ≤ 255.
Proof. cbn. repeat split; apply clamp_range. Qed.

(** ** Packing *)

(** [a | b] is [a + b] when [b] fits below the lowest set bit of [a]. *)
Lemma lor_fields k n b :
  0 ≤ n → 0 ≤ b < 2 ^ n → Z.lor (k * 2 ^ n) b = k * 2 ^ n + b.
Proof.
  intros Hn Hb.
  assert (Hland : Z.land (k * 2 ^ n) b = 0).
  { apply Z.bits_inj'. intros i Hi.
    rewrite Z.land_spec, Z.bits_0, <- Z.shiftl_mul_pow2 by lia.
    destruct (Z.lt_ge_cases i n).
    - by rewrite Z.shiftl_spec_low.
    - rewrite <- (Z.mod_small b (2 ^ n)) by lia.
      rewrite Z.mod_pow2_bits_high by lia. apply andb_false_r. }
  by rewrite <- Z.lxor_lor, <- Z.add_nocarry_lxor.
Qed.

Section Packing.

Variables R G B : Z.
Hypothesis (HR : 0 ≤ R ≤ 255) (HG : 0 ≤ G ≤ 255) (HB : 0 ≤ B ≤ 255).

(** The [int] expression of line 54, before the conversion to
    [uint32_t]. *)
Lemma lor_argb_signed :
  Z.lor (Z.lor (Z.lor (- 2 ^ 24) (Z.shiftl R 16)) (Z.shiftl G 8)) B
  = - 2 ^ 24 + R * 2 ^ 16 + G * 2 ^ 8 + B.
Proof.
  rewrite !Z.shiftl_mul_pow2 by lia.
  replace (- 2 ^ 24) with ((-1) * 2 ^ 24) by lia.
  rewrite lor_fields by lia.
  replace (-1 * 2 ^ 24 + R * 2 ^ 16) with ((R - 256) * 2 ^ 16) by lia.
  rewrite lor_fields by lia.
  replace ((R - 256) * 2 ^ 16 + G * 2 ^ 8)
    with (((R - 256) * 2 ^ 8 + G) * 2 ^ 8) by lia.
  rewrite lor_fields by lia. lia.
Qed.

(** The same expression on unsigned 32-bit values, as the
    specification writes it. *)
Lemma lor_argb_unsigned :
  Z.lor (Z.lor (Z.lor 0xFF000000 (Z.shiftl R 16)) (Z.shiftl G 8)) B
  = 0xFF000000 + R * 2 ^ 16 + G * 2 ^ 8 + B.
Proof.
  rewrite !Z.shiftl_mul_pow2 by lia.
  replace 0xFF000000 with (255 * 2 ^ 24) by lia.
  rewrite lor_fields by lia.
  replace (255 * 2 ^ 24 + R * 2 ^ 16) with ((R + 65280) * 2 ^ 16) by lia.
  rewrite lor_fields by lia.
  replace ((R + 65280) * 2 ^ 16 + G * 2 ^ 8)
    with (((R + 65280) * 2 ^ 8 + G) * 2 ^ 8) by lia.
  rewrite lor_fields by lia. lia.
Qed.

Lemma pack_argb_sum :
  pack_argb (RGB R G B) = 0xFF000000 + R * 2 ^ 16 + G * 2 ^ 8 + B.
Proof.
  unfold pack_argb, to_uint32; cbn [red green blue].
  rewrite lor_argb_signed.
  replace (- 2 ^ 24 + R * 2 ^ 16 + G * 2 ^ 8 + B)
    with (0xFF000000 + R * 2 ^ 16 + G * 2 ^ 8 + B + (-1) * 2 ^ 32) by lia.
  rewrite Z.mod_add by lia. apply Z.mod_small. lia.
Qed.

Lemma pack_argb_lor :
  pack_argb (RGB R G B)
  = Z.lor (Z.lor (Z.lor 0xFF000000 (Z.shiftl R 16)) (Z.shiftl G 8)) B.
Proof. by rewrite pack_argb_sum, lor_argb_unsigned. Qed.

Lemma pack_argb_uint32 : 0 ≤ pack_argb (RGB R G B) < 2 ^ 32.
Proof. rewrite pack_argb_sum. lia. Qed.

Lemma pack_argb_alpha : Z.shiftr (pack_argb (RGB R G B)) 24 = 255.
Proof.
  rewrite pack_argb_sum, Z.shiftr_div_pow2 by lia.
  symmetry. apply Z.div_unique with (r := R * 2 ^ 16 + G * 2 ^ 8 + B); lia.
Qed.

Lemma pack_argb_red :
  Z.land (Z.shiftr (pack_argb (RGB R G B)) 16) 255 = R.
Proof.
  rewrite byte_mask_mod, pack_argb_sum, Z.shiftr_div_pow2 by lia.
  replace ((0xFF000000 + R * 2 ^ 16 + G * 2 ^ 8 + B) / 2 ^ 16)
    with (R + 255 * 256).
  - rewrite Z.mod_add by lia. apply Z.mod_small. lia.
  - apply Z.div_unique with (r := G * 2 ^ 8 + B); lia.
Qed.

Lemma pack_argb_green :
  Z.land (Z.shiftr (pack_argb (RGB R G B)) 8) 255 = G.
Proof.
  rewrite byte_mask_mod, pack_argb_sum, Z.shiftr_div_pow2 by lia.
  replace ((0xFF000000 + R * 2 ^ 16 + G * 2 ^ 8 + B) / 2 ^ 8)
    with (G + (255 * 256 + R) * 256).
  - rewrite Z.mod_add by lia. apply Z.mod_small. lia.
  - apply Z.div_unique with (r := B); lia.
Qed.

Lemma pack_argb_blue : Z.land (pack_argb (RGB R G B)) 255 = B.
Proof.
  rewrite byte_mask_mod, pack_argb_sum.
  replace (0xFF000000 + R * 2 ^ 16 + G * 2 ^ 8 + B)
    with (B + ((255 * 256 + R) * 256 + G) * 256) by lia.
  rewrite Z.mod_add by lia. apply Z.mod_small. lia.
Qed.

End Packing.

(** * Memory and loops *)

Lemma int_result_Some z r : int_result z = Some r ↔ in_int z ∧ r = z.
Proof.
  unfold int_result. case_decide; split.
  - by intros [= <-].
  - by intros [_ ->].
  - done.
  - by intros [? _].
Qed.

Lemma int_result_in_int z : in_int z → int_result z = Some z.
Proof. intros. by apply int_result_Some. Qed.

(** [y * stride + x] on [int]. *)
Lemma index_Some a b c r :
  (imul a b ≫= λ t, iadd t c) = Some r ↔
  in_int (a * b) ∧ in_int (a * b + c) ∧ r = a * b + c.
Proof.
  unfold imul, iadd. split.
  - intros H. apply bind_Some in H as (t & Ht & Hr).
    apply int_result_Some in Ht as [? ->].
    apply int_result_Some in Hr as [? ->]. done.
  - intros (? & ? & ->). rewrite int_result_in_int by done.
    cbn. by rewrite int_result_in_int.
Qed.

Lemma store_Some st p i v st' :
  store st p i v = Some st' ↔
  ∃ cells, heap st !! blk p = Some cells ∧
    0 ≤ ofs p + i < Z.of_nat (length cells) ∧
    st' = {| heap := <[blk p := <[Z.to_nat (ofs p + i) := v]> cells]> (heap st);
             trace := trace st ++ [EvStore (blk p) (ofs p + i) v] |}.
Proof.
  unfold store. split.
  - intros H. apply bind_Some in H as (cells & Hc & H).
    case_decide; [|done]. exists cells. by injection H as <-.
  - intros (cells & Hc & Hr & ->). rewrite Hc. cbn. by rewrite decide_True.
Qed.

Lemma load_is_Some m p i :
  is_Some (load m p i) ↔
  ∃ cells, m !! blk p = Some cells ∧ 0 ≤ ofs p + i < Z.of_nat (length cells).
Proof.
  unfold load. split.
  - intros [v H]. apply bind_Some in H as (cells & Hc & H).
    case_decide; [|done]. exists cells. split; [done|].
    apply lookup_lt_Some in H. lia.
  - intros (cells & Hc & Hr). rewrite Hc. cbn. rewrite decide_True by lia.
    apply lookup_lt_is_Some. lia.
Qed.

(** A store succeeds exactly where a load does. *)
Lemma store_is_Some st p i v :
  is_Some (store st p i v) ↔ is_Some (load (heap st) p i).
Proof.
  rewrite load_is_Some. split.
  - intros [st' H]. apply store_Some in H as (cells & ? & ? & _). eauto.
  - intros (cells & ? & ?). eexists. apply store_Some. eauto.
Qed.

Lemma load_store_eq st p i v st' :
  store st p i v = Some st' → load (heap st') p i = Some v.
Proof.
  intros (cells & Hc & Hr & ->)%store_Some. unfold load. cbn.
  rewrite lookup_insert_eq. cbn. rewrite decide_True by lia.
  apply list_lookup_insert_eq. lia.
Qed.

Lemma heap_store_ne st p i v st' b :
  store st p i v = Some st' → b ≠ blk p → heap st' !! b = heap st !! b.
Proof.
  intros (cells & Hc & Hr & ->)%store_Some Hb. cbn.
  by rewrite lookup_insert_ne.
Qed.

Lemma load_store_ne st p i v st' q j :
  store st p i v = Some st' →
  blk q ≠ blk p ∨ ofs q + j ≠ ofs p + i →
  load (heap st') q j = load (heap st) q j.
Proof.
  intros Hst Hne. unfold load.
  destruct (decide (blk q = blk p)) as [Heq|Hb].
  - destruct Hne as [?|Hne]; [done|].
    apply store_Some in Hst as (cells & Hc & Hr & ->). cbn.
    rewrite Heq, lookup_insert_eq, Hc. cbn.
    case_decide; [|done]. apply list_lookup_insert_ne. lia.
  - by rewrite (heap_store_ne _ _ _ _ _ _ Hst).
Qed.

Lemma trace_store st p i v st' :
  store st p i v = Some st' →
  trace st' = trace st ++ [EvStore (blk p) (ofs p + i) v].
Proof. by intros (cells & Hc & Hr & ->)%store_Some. Qed.

(** Loads through a pointer depend on its block only. *)
Lemma load_ext m1 m2 p i :
  m1 !! blk p = m2 !! blk p → load m1 p i = load m2 p i.
Proof. unfold load. by intros ->. Qed.

Lemma writes_of_app t1 t2 : writes_of (t1 ++ t2) = writes_of t1 ++ writes_of t2.
Proof. apply omap_app. Qed.

Lemma logs_of_app t1 t2 : logs_of (t1 ++ t2) = logs_of t1 ++ logs_of t2.
Proof. apply omap_app. Qed.

(** Invariant rule for the counting loop, partial correctness. *)
Lemma for_loop_inv (I : Z → state → Prop) body n lo st st' :
  I lo st →
  (∀ i s s', lo ≤ i < lo + Z.of_nat n → I i s → body i s = Some s' → I (i + 1) s') →
  for_loop body n lo st = Some st' →
  I (lo + Z.of_nat n) st'.
Proof.
  revert lo st. induction n as [|n IH]; intros lo st H0 Hstep Hrun.
  - cbn in Hrun. injection Hrun as <-. by rewrite Z.add_0_r.
  - cbn [for_loop] in Hrun. apply bind_Some in Hrun as (s1 & Hb & Hrun).
    replace (lo + Z.of_nat (S n)) with (lo + 1 + Z.of_nat n) by lia.
    apply (IH (lo + 1) s1); [| |done].
    + apply (Hstep lo st); [lia|done..].
    + intros i s s' Hi. apply Hstep. lia.
Qed.

(** Invariant rule for the counting loop, with termination: when the body
    succeeds under the invariant, so does the loop. *)
Lemma for_loop_total (I : Z → state → Prop) body n lo st :
  I lo st →
  (∀ i s, lo ≤ i < lo + Z.of_nat n → I i s →
     ∃ s', body i s = Some s' ∧ I (i + 1) s') →
  ∃ st', for_loop body n lo st = Some st' ∧ I (lo + Z.of_nat n) st'.
Proof.
  revert lo st. induction n as [|n IH]; intros lo st H0 Hstep.
  - exists st. by rewrite Z.add_0_r.
  - destruct (Hstep lo st) as (s1 & Hb & H1); [lia|done|].
    destruct (IH (lo + 1) s1) as (st' & Hrun & HI); [done| |].
    + intros i s Hi. apply Hstep. lia.
    + exists st'. cbn [for_loop]. rewrite Hb. cbn.
      replace (lo + Z.of_nat (S n)) with (lo + 1 + Z.of_nat n) by lia. done.
Qed.

(** A loop whose bound is not positive does nothing. *)
Lemma for_range_empty hi body st : hi ≤ 0 → for_range hi body st = Some st.
Proof. intros. unfold for_range. by replace (Z.to_nat hi) with O by lia. Qed.

(** A loop whose body does nothing does nothing. *)
Lemma for_loop_skip body n lo st :
  (∀ i s, body i s = Some s) → for_loop body n lo st = Some st.
Proof.
  intros Hb. revert lo. induction n as [|n IH]; intros lo; [done|].
  cbn [for_loop]. rewrite Hb. cbn. apply IH.
Qed.

(** Row-major indices determine the pixel. *)
Lemma row_major_inj w y x y' x' :
  0 ≤ x < w → 0 ≤ x' < w →
  y * w + x = y' * w + x' → y = y' ∧ x = x'.
Proof.
  intros Hx Hx' Heq.
  assert (y = y'); [|subst; lia].
  destruct (Z.lt_trichotomy y y') as [?|[?|?]]; [|done|]; nia.
Qed.

(** * The conversion loops *)

Section Run.

Variables (srcY srcU srcV dst : ptr).
Variables (width height yRowStride uvRowStride uvPixelStride : Z).

Local Abbreviation px := (pixel_argb srcY srcU srcV yRowStride uvRowStride uvPixelStride).
Local Abbreviation step :=
  (convert_pixel srcY srcU srcV dst width yRowStride uvRowStride uvPixelStride).
Local Abbreviation loops :=
  (convert_loops srcY srcU srcV dst width height yRowStride uvRowStride uvPixelStride).
Local Abbreviation yIdx := (yIdx_of yRowStride).
Local Abbreviation uvIdx := (uvIdx_of uvRowStride uvPixelStride).
Local Abbreviation valid :=
  (valid_call srcY srcU srcV dst width height yRowStride uvRowStride uvPixelStride).

Lemma pixel_argb_Some m y x v :
  px m y x = Some v ↔
  idx_in_int yRowStride uvRowStride uvPixelStride y x ∧
  ∃ bY bU bV,
    load m srcY (yIdx y x) = Some bY ∧
    load m srcU (uvIdx y x) = Some bU ∧
    load m srcV (uvIdx y x) = Some bV ∧
    v = pack_argb (yuv_to_rgb bY bU bV).
Proof.
  unfold pixel_argb, idx_in_int, yIdx_of, uvIdx_of, imul, iadd. split.
  - intros H.
    apply bind_Some in H as (i1 & Hi1 & H).
    apply index_Some in Hi1 as (? & ? & ->).
    apply bind_Some in H as (i2 & Hi2 & H).
    apply bind_Some in Hi2 as (a & (? & ->)%int_result_Some & Hi2).
    apply bind_Some in Hi2 as (b & (? & ->)%int_result_Some & Hi2).
    apply int_result_Some in Hi2 as (? & ->).
    apply bind_Some in H as (bY & HY & H).
    apply bind_Some in H as (bU & HU & H).
    apply bind_Some in H as (bV & HV & H).
    injection H as <-. split; [done|]. by exists bY, bU, bV.
  - intros ((? & ? & ? & ? & ?) & bY & bU & bV & HY & HU & HV & ->).
    repeat (rewrite int_result_in_int by done; cbn).
    rewrite HY. cbn. rewrite HU. cbn. rewrite HV. done.
Qed.

(** The value of a pixel depends on the three source blocks only. *)
Lemma pixel_argb_ext m1 m2 y x :
  m1 !! blk srcY = m2 !! blk srcY →
  m1 !! blk srcU = m2 !! blk srcU →
  m1 !! blk srcV = m2 !! blk srcV →
  px m1 y x = px m2 y x.
Proof.
  intros HY HU HV. apply option_eq. intros v.
  rewrite !pixel_argb_Some.
  by rewrite !(load_ext m1 m2 srcY), !(load_ext m1 m2 srcU), !(load_ext m1 m2 srcV).
Qed.

Lemma convert_pixel_Some y x st st' :
  step y x st = Some st' ↔
  ∃ v, px (heap st) y x = Some v ∧
    in_int (y * width) ∧ in_int (y * width + x) ∧
    store st dst (y * width + x) v = Some st'.
Proof.
  unfold convert_pixel. split.
  - intros H. apply bind_Some in H as (v & Hv & H).
    apply bind_Some in H as (o & (? & ? & ->)%index_Some & Hst).
    by exists v.
  - intros (v & Hv & ? & ? & Hst). rewrite Hv. cbn.
    assert ((imul y width ≫= λ t, iadd t x) = Some (y * width + x)) as ->
      by by apply index_Some.
    done.
Qed.

(** With no column or no row, nothing happens. *)
Lemma convert_loops_empty st :
  width ≤ 0 ∨ height ≤ 0 → loops st = Some st.
Proof.
  intros [Hw|Hh]; unfold convert_loops.
  - unfold for_range at 1. apply for_loop_skip.
    intros i s. by apply for_range_empty.
  - by apply for_range_empty.
Qed.

(** In a valid call every sample index is in range. *)
Lemma valid_indices m y x :
  valid m → 0 ≤ y < height → 0 ≤ x < width →
  0 ≤ y * yRowStride ∧ 0 ≤ yIdx y x < yRowStride * height ∧
  0 ≤ Z.quot y 2 * uvRowStride ∧ 0 ≤ Z.quot x 2 * uvPixelStride ∧
  0 ≤ uvIdx y x < uvRowStride * ((height + 1) / 2) ∧
  0 ≤ y * width ∧ 0 ≤ y * width + x < width * height.
Proof.
  intros [Hw Hh HyS HpS HuvS _ _ _ _ _] Hy Hx.
  unfold yIdx_of, uvIdx_of.
  rewrite !Z.quot_div_nonneg by lia.
  assert (0 ≤ y / 2 ∧ y / 2 + 1 ≤ (height + 1) / 2) as [? ?]
    by (Z.to_euclidean_division_equations; lia).
  assert (0 ≤ x / 2 ∧ x / 2 + 1 ≤ (width + 1) / 2) as [? ?]
    by (Z.to_euclidean_division_equations; lia).
  generalize dependent (y / 2). generalize dependent (x / 2).
  generalize dependent ((height + 1) / 2).
  generalize dependent ((width + 1) / 2).
  intros cw HuvS ch uvX ? ? uvY ? ?.
  assert (0 ≤ uvRowStride) by nia.
  assert ((uvX + 1) * uvPixelStride ≤ cw * uvPixelStride) by nia.
  assert ((uvY + 1) * uvRowStride ≤ uvRowStride * ch) by nia.
  assert ((y + 1) * yRowStride ≤ yRowStride * height) by nia.
  assert ((y + 1) * width ≤ width * height) by nia.
  repeat split; nia.
Qed.

Lemma valid_px m y x :
  valid m → 0 ≤ y < height → 0 ≤ x < width →
  is_Some (px m y x).
Proof.
  intros Hv Hy Hx.
  destruct (valid_indices _ y x Hv Hy Hx) as (? & ? & ? & ? & ? & _).
  destruct Hv as [_ _ _ _ _ HY HU HV _ (? & ? & ?)].
  destruct (HY (yIdx_of yRowStride y x)) as [bY HbY]; [done|].
  destruct (HU (uvIdx_of uvRowStride uvPixelStride y x)) as [bU HbU]; [done|].
  destruct (HV (uvIdx_of uvRowStride uvPixelStride y x)) as [bV HbV]; [done|].
  eexists. apply pixel_argb_Some. split.
  - unfold idx_in_int, in_int, INT_MIN in *. unfold uvIdx_of, yIdx_of in *.
    repeat split; lia.
  - by exists bY, bU, bV.
Qed.

(** ** The loop invariant *)

Hypothesis disjoint : disjoint_out srcY srcU srcV dst.

Variable st0 : state.

Local Abbreviation Inv :=
  (Inv srcY srcU srcV dst width yRowStride uvRowStride uvPixelStride st0).

Lemma Inv_init : Inv 0 st0.
Proof.
  split; [done|done| |].
  - intros y x ? ? ?. nia.
  - exists []. by rewrite app_nil_r.
Qed.

Lemma px_frame s y x :
  (∀ b, b ≠ blk dst → heap s !! b = heap st0 !! b) →
  px (heap s) y x = px (heap st0) y x.
Proof.
  intros Hf. destruct disjoint as (? & ? & ?).
  apply pixel_argb_ext; apply Hf; congruence.
Qed.

Lemma Inv_step y x s s' :
  0 ≤ y → 0 ≤ x < width →
  Inv (y * width + x) s →
  step y x s = Some s' →
  Inv (y * width + x + 1) s'.
Proof.
  intros Hy Hx [Hf Hr Hd (new & Ht & Hw & Hl)].
  intros (v & Hv & _ & _ & Hst)%convert_pixel_Some.
  rewrite px_frame in Hv by done.
  assert (0 ≤ y * width) by nia.
  split.
  - intros b Hb. rewrite (heap_store_ne _ _ _ _ _ _ Hst) by done. by apply Hf.
  - intros j Hj. rewrite (load_store_ne _ _ _ _ _ _ _ Hst) by (right; lia).
    apply Hr. lia.
  - intros y' x' Hy' Hx' Hlt.
    destruct (decide (y' * width + x' = y * width + x)) as [Heq|Hne].
    + destruct (row_major_inj _ _ _ _ _ Hx' Hx Heq) as [-> ->].
      exists v. split; [done|]. by apply (load_store_eq _ _ _ _ _ Hst).
    + rewrite (load_store_ne _ _ _ _ _ _ _ Hst) by (right; lia).
      apply Hd; [done..|lia].
  - exists (new ++ [EvStore (blk dst) (ofs dst + (y * width + x)) v]).
    rewrite (trace_store _ _ _ _ _ Hst), Ht, writes_of_app, logs_of_app, Hw, Hl.
    rewrite app_assoc. split; [done|]. split; [|done].
    rewrite (seqZ_app 0 (y * width + x) 1), fmap_app by lia. cbn.
    by rewrite (seqZ_cons _ 1), (seqZ_nil _ (Z.pred 1)) by lia.
Qed.

Lemma Inv_eq k k' s : k = k' → Inv k s → Inv k' s.
Proof. by intros ->. Qed.

(** Partial correctness: a run that returns has converted every pixel. *)
Lemma convert_loops_Inv st' :
  0 < width → loops st0 = Some st' → Inv (Z.max 0 height * width) st'.
Proof.
  intros Hw Hrun. unfold convert_loops, for_range in Hrun.
  apply (for_loop_inv (λ y s, 0 ≤ y ∧ Inv (y * width) s)) in Hrun.
  - destruct Hrun as [_ Hrun]. revert Hrun. apply Inv_eq. lia.
  - split; [done|]. apply (Inv_eq 0); [lia|apply Inv_init].
  - intros y s s' Hy [_ HI] Hrow. split; [lia|].
    apply (for_loop_inv (λ x s, 0 ≤ x ∧ Inv (y * width + x) s)) in Hrow.
    + destruct Hrow as [_ Hrow]. revert Hrow. apply Inv_eq. lia.
    + split; [done|]. revert HI. apply Inv_eq. lia.
    + intros x t t' Hx [_ HI'] Hstep. split; [lia|].
      apply (Inv_eq (y * width + x + 1)); [lia|].
      apply (Inv_step y x t); [lia|lia|done..].
Qed.

(** Total correctness: a valid call returns, with every pixel
    converted. *)
Lemma convert_loops_total :
  valid (heap st0) →
  ∃ st', loops st0 = Some st' ∧ Inv (height * width) st'.
Proof.
  intros Hv. destruct (Hv) as [Hw Hh _ _ _ _ _ _ Hdst (_ & _ & Hsz)].
  unfold convert_loops, for_range.
  destruct (for_loop_total
    (λ y s, 0 ≤ y ∧ Inv (y * width) s)
    (λ y, for_range width (λ x, step y x)) (Z.to_nat height) 0 st0)
    as (st' & Hrun & _ & HI).
  - split; [done|]. apply (Inv_eq 0); [lia|apply Inv_init].
  - intros y s Hy [_ HI]. unfold for_range.
    destruct (for_loop_total
      (λ x s, 0 ≤ x ∧ Inv (y * width + x) s)
      (λ x, step y x) (Z.to_nat width) 0 s) as (s' & Hrow & _ & HI').
    + split; [done|]. revert HI. apply Inv_eq. lia.
    + intros x t Hx [_ HIt].
      assert (Hy' : 0 ≤ y < height) by lia.
      assert (Hx' : 0 ≤ x < width) by lia.
      destruct (valid_px _ y x Hv Hy' Hx') as [v Hpx].
      destruct (valid_indices _ y x Hv Hy' Hx') as (_ & _ & _ & _ & _ & ? & ?).
      destruct (proj2 (store_is_Some t dst (y * width + x) v)) as [t' Hst].
      { destruct HIt as [_ Hr _ _]. rewrite Hr by lia. by apply Hdst. }
      assert (Hstep : step y x t = Some t').
      { apply convert_pixel_Some. exists v.
        rewrite px_frame by (by destruct HIt).
        unfold in_int, INT_MIN. repeat split; try done; lia. }
      exists t'. split; [done|]. split; [lia|].
      apply (Inv_eq (y * width + x + 1)); [lia|].
      by apply (Inv_step y x t); [lia|lia|..].
    + exists s'. split; [done|]. split; [lia|].
      revert HI'. apply Inv_eq. lia.
  - exists st'. split; [done|]. revert HI. apply Inv_eq. lia.
Qed.

End Run.

(** * The entry point *)

Section Entry.

Variables (env : JNIEnv) (yBuffer uBuffer vBuffer outBuffer : jobject).
Variables (srcY srcU srcV dst : ptr).
Variables (width height yRowStride uvRowStride uvPixelStride : Z).

Local Abbreviation run :=
  (convertYuvToRgb env yBuffer uBuffer vBuffer
     width height yRowStride uvRowStride uvPixelStride outBuffer).
Local Abbreviation loops :=
  (convert_loops srcY srcU srcV dst width height yRowStride uvRowStride uvPixelStride).


Hypothesis resolved :
  resolves env yBuffer uBuffer vBuffer outBuffer srcY srcU srcV dst.

(** Four addresses: the loops. *)
Lemma convert_resolved st : run st = loops st.
Proof.
  destruct resolved as (HY & HU & HV & HO).
  unfold Java_com_signaturelens_core_native_NativeProcessor_convertYuvToRgb.
  by rewrite HY, HU, HV, HO.
Qed.


Lemma convert_empty st : width ≤ 0 ∨ height ≤ 0 → run st = Some st.
Proof. rewrite convert_resolved. apply convert_loops_empty. Qed.

Hypothesis disjoint : disjoint_out srcY srcU srcV dst.

(** The state after a run that returns. *)
Lemma convert_Inv st st' :
  0 < width → 0 < height → run st = Some st' →
  Inv srcY srcU srcV dst width yRowStride uvRowStride uvPixelStride st
    (width * height) st'.
Proof.
  rewrite convert_resolved. intros Hw Hh Hrun.
  apply convert_loops_Inv in Hrun; [|done..].
  by replace (Z.max 0 height * width) with (width * height) in Hrun by lia.
Qed.

(** A valid call returns. *)
Lemma convert_total st :
  valid_call srcY srcU srcV dst width height yRowStride uvRowStride
    uvPixelStride (heap st) →
  ∃ st', run st = Some st'.
Proof.
  intros Hv. destruct (convert_loops_total _ _ _ _ _ _ _ _ _ disjoint st Hv)
    as (st' & Hrun & _).
  exists st'. by rewrite convert_resolved.
Qed.

(** The chroma index, with floor division. *)
Lemma uvIdx_of_div y x :
  0 ≤ y → 0 ≤ x →
  uvIdx_of uvRowStride uvPixelStride y x
  = y / 2 * uvRowStride + x / 2 * uvPixelStride.
Proof. intros. unfold uvIdx_of. by rewrite !Z.quot_div_nonneg by lia. Qed.

(** The slot of a pixel after a run that returns: the three samples read
    from the initial planes, converted and packed. *)
Lemma convert_pixel_value st st' x y :
  run st = Some st' → 0 ≤ x < width → 0 ≤ y < height →
  ∃ bY bU bV,
    load (heap st) srcY (y * yRowStride + x) = Some bY ∧
    load (heap st) srcU (y / 2 * uvRowStride + x / 2 * uvPixelStride) = Some bU ∧
    load (heap st) srcV (y / 2 * uvRowStride + x / 2 * uvPixelStride) = Some bV ∧
    load (heap st') dst (y * width + x) = Some (pack_argb (yuv_to_rgb bY bU bV)).
Proof.
  intros Hrun Hx Hy.
  destruct (convert_Inv st st') as [_ _ Hd _]; [lia|lia|done|].
  destruct (Hd y x) as (v & Hv & Hload); [lia|lia|nia|].
  apply pixel_argb_Some in Hv as (_ & bY & bU & bV & HY & HU & HV & ->).
  rewrite uvIdx_of_div in HU, HV by lia.
  by exists bY, bU, bV.
Qed.

End Entry.

(** ** Two runs *)

(** The channels of a converted pixel are the clamped raw channels. *)
Lemma channels_of_pixel bY bU bV :
  let Y := Z.land bY 255 in
  let U := Z.land bU 255 - 128 in
  let V := Z.land bV 255 - 128 in
  let p := pack_argb (yuv_to_rgb bY bU bV) in
  red_of p = clamp (raw_R Y V) ∧ green_of p = clamp (raw_G Y U V) ∧
  blue_of p = clamp (raw_B Y U).
Proof.
  intros Y U V p. subst p. rewrite yuv_to_rgb_raw. fold Y U V.
  unfold red_of, green_of, blue_of.
  by rewrite pack_argb_red, pack_argb_green, pack_argb_blue
    by apply clamp_range.
Qed.

Lemma clamp_unsaturated v : 0 < clamp v < 255 → clamp v = v.
Proof. rewrite clamp_max_min. unfold clamp_spec. lia. Qed.

Lemma addressable_block (m : mem) p n cells :
  m !! blk p = Some cells → 0 ≤ ofs p →
  ofs p + n ≤ Z.of_nat (length cells) → addressable m p n.
Proof.
  intros Hc Ho Hn i Hi. apply load_is_Some. exists cells. split; [done|lia].
Qed.

Section TwoRuns.

Variables (env1 env2 : JNIEnv).
Variables (yBuffer1 uBuffer1 vBuffer1 outBuffer1 : jobject).
Variables (yBuffer2 uBuffer2 vBuffer2 outBuffer2 : jobject).
Variables (srcY1 srcU1 srcV1 dst1 srcY2 srcU2 srcV2 dst2 : ptr).
Variables (width height yRowStride uvRowStride uvPixelStride : Z).

Hypothesis resolved1 :
  resolves env1 yBuffer1 uBuffer1 vBuffer1 outBuffer1 srcY1 srcU1 srcV1 dst1.
Hypothesis resolved2 :
  resolves env2 yBuffer2 uBuffer2 vBuffer2 outBuffer2 srcY2 srcU2 srcV2 dst2.
Hypothesis disjoint1 : disjoint_out srcY1 srcU1 srcV1 dst1.
Hypothesis disjoint2 : disjoint_out srcY2 srcU2 srcV2 dst2.

Local Abbreviation run1 :=
  (convertYuvToRgb env1 yBuffer1 uBuffer1 vBuffer1
     width height yRowStride uvRowStride uvPixelStride outBuffer1).
Local Abbreviation run2 :=
  (convertYuvToRgb env2 yBuffer2 uBuffer2 vBuffer2
     width height yRowStride uvRowStride uvPixelStride outBuffer2).

(** Two runs that read the same three samples for a pixel leave the same
    value in its slot. *)
Lemma convert_pixel_agree st1 st1' st2 st2' x y :
  run1 st1 = Some st1' → run2 st2 = Some st2' →
  0 ≤ x < width → 0 ≤ y < height →
  load (heap st1) srcY1 (y * yRowStride + x)
  = load (heap st2) srcY2 (y * yRowStride + x) →
  load (heap st1) srcU1 (y / 2 * uvRowStride + x / 2 * uvPixelStride)
  = load (heap st2) srcU2 (y / 2 * uvRowStride + x / 2 * uvPixelStride) →
  load (heap st1) srcV1 (y / 2 * uvRowStride + x / 2 * uvPixelStride)
  = load (heap st2) srcV2 (y / 2 * uvRowStride + x / 2 * uvPixelStride) →
  load (heap st1') dst1 (y * width + x) = load (heap st2') dst2 (y * width + x) ∧
  is_Some (load (heap st1') dst1 (y * width + x)).
Proof.
  intros Hrun1 Hrun2 Hx Hy HY HU HV.
  destruct (convert_pixel_value _ _ _ _ _ _ _ _ _ _ _ _ _ _ resolved1 disjoint1
              st1 st1' x y Hrun1 Hx Hy) as (a & b & c & Ha & Hb & Hc & ->).
  destruct (convert_pixel_value _ _ _ _ _ _ _ _ _ _ _ _ _ _ resolved2 disjoint2
              st2 st2' x y Hrun2 Hx Hy) as (a' & b' & c' & Ha' & Hb' & Hc' & ->).
  split; [congruence|done].
Qed.

End TwoRuns.

(** A frame laid out in blocks 1 to 4 is a valid call when the four
    arrays are long enough. *)
Lemma frame_heap_valid Y U V out width height yRowStride uvRowStride uvPixelStride :
  0 < width → 0 < height → width ≤ yRowStride → 1 ≤ uvPixelStride →
  (width + 1) / 2 * uvPixelStride ≤ uvRowStride →
  yRowStride * height ≤ Z.of_nat (length Y) →
  uvRowStride * ((height + 1) / 2) ≤ Z.of_nat (length U) →
  uvRowStride * ((height + 1) / 2) ≤ Z.of_nat (length V) →
  width * height ≤ Z.of_nat (length out) →
  yRowStride * height ≤ INT_MAX ∧
  uvRowStride * ((height + 1) / 2) ≤ INT_MAX ∧
  width * height ≤ INT_MAX →
  valid_call (Ptr 1 0) (Ptr 2 0) (Ptr 3 0) (Ptr 4 0)
    width height yRowStride uvRowStride uvPixelStride (frame_heap Y U V out).
Proof.
  intros. split; try done.
  - by apply (addressable_block _ _ _ Y).
  - by apply (addressable_block _ _ _ U).
  - by apply (addressable_block _ _ _ V).
  - by apply (addressable_block _ _ _ out).
Qed.

(** Closed comparisons of integers, by evaluation. *)
Ltac closed_arith :=
  vm_compute; repeat split; first [reflexivity | discriminate].

(** The 2x2 scenario and the 4x4 frames are valid calls. *)
Lemma gray_valid o0 o1 o2 o3 t :
  valid_call (Ptr 1 0) (Ptr 2 0) (Ptr 3 0) (Ptr 4 0) 2 2 2 1 1
    (heap (gray_state o0 o1 o2 o3 t)).
Proof.
  apply frame_heap_valid; closed_arith.
Qed.

Lemma frame4_valid Y V :
  length Y = 16%nat → length V = 4%nat →
  valid_call (Ptr 1 0) (Ptr 2 0) (Ptr 3 0) (Ptr 4 0) 4 4 4 2 1
    (frame_heap Y [128; 128; 128; 128] V (replicate 16 0)).
Proof.
  intros HY HV. apply frame_heap_valid; rewrite ?HY, ?HV; closed_arith.
Qed.

(** ** The values stored *)

Lemma writes_of_slot_stores dst out n :
  writes_of (slot_stores dst out n) = (λ k, (blk dst, ofs dst + k)) <$> seqZ 0 n.
Proof.
  unfold slot_stores, writes_of. induction (seqZ 0 n) as [|k l IH]; [done|].
  cbn. by rewrite IH.
Qed.

Lemma logs_of_slot_stores dst out n : logs_of (slot_stores dst out n) = [].
Proof.
  unfold slot_stores, logs_of. induction (seqZ 0 n) as [|k l IH]; [done|].
  cbn. by rewrite IH.
Qed.

Lemma slot_stores_ext dst out out' n :
  (∀ k, 0 ≤ k < n → out k = out' k) →
  slot_stores dst out n = slot_stores dst out' n.
Proof.
  intros Hext. unfold slot_stores. apply list_fmap_ext.
  intros i k Hk. apply lookup_seqZ in Hk as [-> Hi]. rewrite Hext; [done|lia].
Qed.

Lemma slot_stores_snoc dst out n :
  0 ≤ n →
  slot_stores dst out (n + 1)
  = slot_stores dst out n ++ [EvStore (blk dst) (ofs dst + n) (out n)].
Proof.
  intros Hn. unfold slot_stores.
  rewrite (seqZ_app 0 n 1), fmap_app by lia. cbn.
  by rewrite (seqZ_cons _ 1), (seqZ_nil _ (Z.pred 1)) by lia.
Qed.

Section StoredValues.

Variables (srcY srcU srcV dst : ptr).
Variables (width height yRowStride uvRowStride uvPixelStride : Z).

Local Abbreviation step :=
  (convert_pixel srcY srcU srcV dst width yRowStride uvRowStride uvPixelStride).
Local Abbreviation loops :=
  (convert_loops srcY srcU srcV dst width height yRowStride uvRowStride uvPixelStride).

(** Induction over the pixels in row-major order. *)
Lemma convert_loops_ind (P : Z → state → Prop) st0 st' :
  0 < width →
  P 0 st0 →
  (∀ y x s s', 0 ≤ y → 0 ≤ x < width →
     P (y * width + x) s → step y x s = Some s' → P (y * width + x + 1) s') →
  loops st0 = Some st' →
  P (Z.max 0 height * width) st'.
Proof.
  intros Hw H0 Hstep Hrun.
  assert (Heq : ∀ k k' s, k = k' → P k s → P k' s) by (by intros k k' s ->).
  unfold convert_loops, for_range in Hrun.
  apply (for_loop_inv (λ y s, 0 ≤ y ∧ P (y * width) s)) in Hrun.
  - destruct Hrun as [_ Hrun]. revert Hrun. apply Heq. lia.
  - split; [done|]. revert H0. apply Heq. lia.
  - intros y s s' Hy [_ HP] Hrow. split; [lia|].
    apply (for_loop_inv (λ x s, 0 ≤ x ∧ P (y * width + x) s)) in Hrow.
    + destruct Hrow as [_ Hrow]. revert Hrow. apply Heq. lia.
    + split; [done|]. revert HP. apply Heq. lia.
    + intros x t t' Hx [_ HP'] Ht. split; [lia|].
      apply (Heq (y * width + x + 1)); [lia|].
      apply (Hstep y x t); [lia|lia|done..].
Qed.

(** A run that returns has appended the stores of the values the slots
    hold at the end, one per slot and in order. *)
Lemma convert_loops_stores st0 st' :
  0 < width → loops st0 = Some st' →
  ∃ out,
    trace st' = trace st0 ++ slot_stores dst out (Z.max 0 height * width) ∧
    ∀ j, 0 ≤ j < Z.max 0 height * width → load (heap st') dst j = Some (out j).
Proof.
  intros Hw Hrun.
  apply (convert_loops_ind (λ k s, ∃ out,
           trace s = trace st0 ++ slot_stores dst out k ∧
           ∀ j, 0 ≤ j < k → load (heap s) dst j = Some (out j)) st0 st');
    [done| | |done].
  - exists (λ _, 0). split; [by rewrite app_nil_r|]. intros j Hj. lia.
  - intros y x s s' Hy Hx (out & Ht & Hl) (v & _ & _ & _ & Hst)%convert_pixel_Some.
    assert (0 ≤ y * width + x) by nia.
    exists (λ j, if decide (j = y * width + x) then v else out j). split.
    + rewrite (trace_store _ _ _ _ _ Hst), Ht, slot_stores_snoc by done.
      rewrite decide_True by done. rewrite <- app_assoc. do 2 f_equal.
      apply slot_stores_ext. intros k Hk. by rewrite decide_False by lia.
    + intros j Hj. case_decide as Hjk.
      * subst j. by apply (load_store_eq _ _ _ _ _ Hst).
      * rewrite (load_store_ne _ _ _ _ _ _ _ Hst) by (right; lia).
        apply Hl. lia.
Qed.

End StoredValues.

(** * Properties of the converter *)

(** The cast truncates: [1.402f * 2] is 2.804, converted to 2 and not
    to 3; [1.402f * -2] is converted to -2 and not to -3. *)
Lemma truncation_is_not_rounding :
  trunc_mul c1_402 2 = 2 ∧ round_spec 1402 1000 2 = 3 ∧
  trunc_mul c1_402 (-2) = -2 ∧ round_spec 1402 1000 (-2) = -3.
Proof. repeat split; vm_compute; reflexivity. Qed.

(** C1.  A valid call returns, and on a call that returns, for every
    pixel [(x, y)] of the frame,
    with [Y = yPlane[y*yRowStride + x]], [U = uPlane[uvIdx] - 128] and
    [V = vPlane[uvIdx] - 128] where
    [uvIdx = (y/2)*uvRowStride + (x/2)*uvPixelStride] (floor division), the
    slot of the pixel holds [R = clamp(Y + trunc(1.402 * V))],
    [G = clamp(Y - trunc(0.344136 * U) - trunc(0.714136 * V))] and
    [B = clamp(Y + trunc(1.772 * U))], where [clamp(v) = max(0, min(255, v))]
    and [trunc] truncates the product toward zero; the truncated exact
    products are the truncated binary32 products the code computes. *)
Theorem convert_channels
    env yBuffer uBuffer vBuffer outBuffer srcY srcU srcV dst
    width height yRowStride uvRowStride uvPixelStride st x y bY bU bV :
  resolves env yBuffer uBuffer vBuffer outBuffer srcY srcU srcV dst →
  disjoint_out srcY srcU srcV dst →
  0 ≤ x < width → 0 ≤ y < height →
  load (heap st) srcY (y * yRowStride + x) = Some bY →
  load (heap st) srcU (y / 2 * uvRowStride + x / 2 * uvPixelStride) = Some bU →
  load (heap st) srcV (y / 2 * uvRowStride + x / 2 * uvPixelStride) = Some bV →
  0 ≤ bY ≤ 255 → 0 ≤ bU ≤ 255 → 0 ≤ bV ≤ 255 →
  let Y := bY in
  let U := bU - 128 in
  let V := bV - 128 in
  (valid_call srcY srcU srcV dst width height yRowStride uvRowStride
     uvPixelStride (heap st) →
   is_Some (convertYuvToRgb env yBuffer uBuffer vBuffer
              width height yRowStride uvRowStride uvPixelStride outBuffer st)) ∧
  ∀ st',
  convertYuvToRgb env yBuffer uBuffer vBuffer
    width height yRowStride uvRowStride uvPixelStride outBuffer st = Some st' →
  ∃ p, load (heap st') dst (y * width + x) = Some p ∧
    red_of p = clamp_spec (Y + trunc_spec 1402 1000 V) ∧
    green_of p =
      clamp_spec (Y - trunc_spec 344136 1000000 U - trunc_spec 714136 1000000 V) ∧
    blue_of p = clamp_spec (Y + trunc_spec 1772 1000 U) ∧
    trunc_spec 1402 1000 V = trunc_mul c1_402 V ∧
    trunc_spec 344136 1000000 U = trunc_mul c0_344136 U ∧
    trunc_spec 714136 1000000 V = trunc_mul c0_714136 V ∧
    trunc_spec 1772 1000 U = trunc_mul c1_772 U.
Proof.
  intros Hres Hdis Hx Hy HY HU HV HbY HbU HbV Y U V.
  split; [by apply (convert_total _ _ _ _ _ srcY srcU srcV dst)|].
  intros st' Hrun.
  destruct (convert_pixel_value _ _ _ _ _ _ _ _ _ _ _ _ _ _ Hres Hdis
              st st' x y Hrun Hx Hy) as (bY' & bU' & bV' & HY' & HU' & HV' & Hp).
  rewrite HY in HY'. rewrite HU in HU'. rewrite HV in HV'.
  injection HY' as <-. injection HU' as <-. injection HV' as <-.
  exists (pack_argb (yuv_to_rgb bY bU bV)). split; [done|].
  rewrite yuv_to_rgb_spec, !byte_mask_id by done. fold Y U V.
  assert (0 ≤ spec_R Y V ≤ 255 ∧ 0 ≤ spec_G Y U V ≤ 255 ∧
          0 ≤ spec_B Y U ≤ 255) as (? & ? & ?)
    by (unfold spec_R, spec_G, spec_B, clamp_spec; lia).
  unfold red_of, green_of, blue_of.
  rewrite pack_argb_red, pack_argb_green, pack_argb_blue by done.
  destruct (trunc_mul_exact U) as (_ & ? & _ & ?); [subst U; lia|].
  destruct (trunc_mul_exact V) as (? & _ & ? & _); [subst V; lia|].
  done.
Qed.

Lemma convert_channels_witness :
  ∃ st' p,
    convertYuvToRgb direct_env 1 2 3 4 4 4 2 1 4 reddish_state = Some st' ∧
    load (heap st') (Ptr 4 0) (0 * 4 + 1) = Some p ∧
    red_of p = 255 ∧ green_of p = 10 ∧ blue_of p = 100.
Proof.
  destruct (convert_channels direct_env 1 2 3 4 (Ptr 1 0) (Ptr 2 0) (Ptr 3 0)
              (Ptr 4 0) 4 4 4 2 1 reddish_state 1 0 100 128 255)
    as [Hret Hval];
    [by repeat split | by repeat split | lia | lia
    | reflexivity | reflexivity | reflexivity | lia | lia | lia |].
  destruct Hret as [st' Hrun]; [by apply frame4_valid|].
  destruct (Hval st' Hrun) as (p & Hp & HR & HG & HB & _).
  exists st', p. repeat split; [exact Hrun | exact Hp | | | ].
  - rewrite HR. reflexivity.
  - rewrite HG. reflexivity.
  - rewrite HB. reflexivity.
Defined.

(** C2.  A valid call returns, and on a call that returns, the slot
    [outBuffer[y*width + x]] of every pixel holds the 32-bit value [0xFF000000 | (R << 16) | (G << 8) | B],
    for the channels [R], [G], [B] the code computes from the three samples
    of the pixel; its highest byte is [0xFF]. *)
Theorem convert_packed
    env yBuffer uBuffer vBuffer outBuffer srcY srcU srcV dst
    width height yRowStride uvRowStride uvPixelStride st x y :
  resolves env yBuffer uBuffer vBuffer outBuffer srcY srcU srcV dst →
  disjoint_out srcY srcU srcV dst →
  0 ≤ x < width → 0 ≤ y < height →
  (valid_call srcY srcU srcV dst width height yRowStride uvRowStride
     uvPixelStride (heap st) →
   is_Some (convertYuvToRgb env yBuffer uBuffer vBuffer
              width height yRowStride uvRowStride uvPixelStride outBuffer st)) ∧
  ∀ st',
  convertYuvToRgb env yBuffer uBuffer vBuffer
    width height yRowStride uvRowStride uvPixelStride outBuffer st = Some st' →
  ∃ bY bU bV p,
    load (heap st) srcY (y * yRowStride + x) = Some bY ∧
    load (heap st) srcU (y / 2 * uvRowStride + x / 2 * uvPixelStride) = Some bU ∧
    load (heap st) srcV (y / 2 * uvRowStride + x / 2 * uvPixelStride) = Some bV ∧
    load (heap st') dst (y * width + x) = Some p ∧
    let c := yuv_to_rgb bY bU bV in
    p = Z.lor (Z.lor (Z.lor 0xFF000000 (Z.shiftl (red c) 16))
                     (Z.shiftl (green c) 8)) (blue c) ∧
    0 ≤ p < 2 ^ 32 ∧
    alpha_of p = 0xFF.
Proof.
  intros Hres Hdis Hx Hy.
  split; [by apply (convert_total _ _ _ _ _ srcY srcU srcV dst)|].
  intros st' Hrun.
  destruct (convert_pixel_value _ _ _ _ _ _ _ _ _ _ _ _ _ _ Hres Hdis
              st st' x y Hrun Hx Hy) as (bY & bU & bV & HY & HU & HV & Hp).
  exists bY, bU, bV, (pack_argb (yuv_to_rgb bY bU bV)).
  repeat (split; [done|]).
  destruct (yuv_to_rgb_range bY bU bV) as (HR & HG & HB).
  destruct (yuv_to_rgb bY bU bV) as [R G B]. cbn in HR, HG, HB. cbn zeta.
  unfold alpha_of. cbn [red green blue].
  split; [by apply pack_argb_lor|].
  split; [by apply pack_argb_uint32|by apply pack_argb_alpha].
Qed.

Lemma convert_packed_witness :
  ∃ st' p,
    convertYuvToRgb direct_env 1 2 3 4 4 4 2 1 4 reddish_state = Some st' ∧
    load (heap st') (Ptr 4 0) (1 * 4 + 1) = Some p ∧ alpha_of p = 0xFF.
Proof.
  destruct (convert_packed direct_env 1 2 3 4 (Ptr 1 0) (Ptr 2 0) (Ptr 3 0)
              (Ptr 4 0) 4 4 4 2 1 reddish_state 1 1)
    as [Hret Hval]; [by repeat split | by repeat split | lia | lia |].
  destruct Hret as [st' Hrun]; [by apply frame4_valid|].
  destruct (Hval st' Hrun) as (bY & bU & bV & p & _ & _ & _ & Hp & _ & _ & Ha).
  exists st', p. repeat split; [exact Hrun | exact Hp | exact Ha].
Defined.



(** C4.  The concrete scenario: a 2x2 frame with [yRowStride = 2],
    [uvRowStride = 1], [uvPixelStride = 1], luma [16, 16, 16, 16] and chroma
    [128], [128] gives four pixels equal to [0xFF101010], whatever the
    output buffer held before. *)
Theorem gray_scenario o0 o1 o2 o3 t :
  ∃ st',
    convertYuvToRgb direct_env 1 2 3 2 2 2 1 1 4 (gray_state o0 o1 o2 o3 t)
    = Some st' ∧
    heap st' !! 4%positive
    = Some [0xFF101010; 0xFF101010; 0xFF101010; 0xFF101010].
Proof. eexists. split; vm_compute; reflexivity. Qed.

(** C8.  Clamp boundaries, for three samples [Y], [U + 128], [V + 128] read
    as bytes.  With centred chroma 0 the three channels equal [Y], in
    particular 0 for [Y = 0]; a channel whose formula exceeds 255 is 255 and
    one whose formula is negative is 0; [Y = 255] with centred [V = 127]
    gives [R = 255]. *)
Theorem clamp_boundary bY bU bV :
  0 ≤ bY ≤ 255 → 0 ≤ bU ≤ 255 → 0 ≤ bV ≤ 255 →
  let Y := bY in
  let U := bU - 128 in
  let V := bV - 128 in
  let c := yuv_to_rgb bY bU bV in
  yuv_to_rgb bY 128 128 = RGB Y Y Y ∧
  yuv_to_rgb 0 128 128 = RGB 0 0 0 ∧
  (255 < Y + trunc_spec 1402 1000 V → red c = 255) ∧
  (Y + trunc_spec 1402 1000 V < 0 → red c = 0) ∧
  (255 < Y - trunc_spec 344136 1000000 U - trunc_spec 714136 1000000 V →
   green c = 255) ∧
  (Y - trunc_spec 344136 1000000 U - trunc_spec 714136 1000000 V < 0 →
   green c = 0) ∧
  (255 < Y + trunc_spec 1772 1000 U → blue c = 255) ∧
  (Y + trunc_spec 1772 1000 U < 0 → blue c = 0) ∧
  red (yuv_to_rgb 255 bU 255) = 255.
Proof.
  intros HbY HbU HbV Y U V c.
  assert (Hc : c = RGB (spec_R Y V) (spec_G Y U V) (spec_B Y U)).
  { subst c. rewrite yuv_to_rgb_spec, !byte_mask_id by done. done. }
  split.
  { rewrite yuv_to_rgb_spec, !byte_mask_id by lia.
    change (128 - 128) with 0.
    by destruct (spec_neutral bY HbY) as (-> & -> & ->). }
  split; [vm_compute; reflexivity|].
  rewrite Hc. cbn [red green blue].
  unfold spec_R, spec_G, spec_B, clamp_spec.
  repeat (split; [lia|]).
  rewrite yuv_to_rgb_spec, !byte_mask_id by lia. cbn [red].
  change (255 - 128) with 127. change (spec_R 255 127) with 255. done.
Qed.

Lemma clamp_boundary_witness :
  red (yuv_to_rgb 255 0 255) = 255 ∧ blue (yuv_to_rgb 0 0 255) = 0 ∧
  yuv_to_rgb 0 128 128 = RGB 0 0 0.
Proof.
  destruct (clamp_boundary 255 0 255) as (_ & _ & HR & _); [lia..|].
  destruct (clamp_boundary 0 0 255) as (_ & H0 & _ & _ & _ & _ & _ & HB & _);
    [lia..|].
  split; [apply HR; reflexivity|]. split; [apply HB; reflexivity|exact H0].
Defined.

(** C9.  With the four buffers addressable and [width <= 0] or
    [height <= 0], the call returns normally in the state it started in: no
    slot is written and no log entry is emitted. *)
Theorem empty_frame_noop
    env yBuffer uBuffer vBuffer outBuffer srcY srcU srcV dst
    width height yRowStride uvRowStride uvPixelStride st :
  resolves env yBuffer uBuffer vBuffer outBuffer srcY srcU srcV dst →
  width ≤ 0 ∨ height ≤ 0 →
  convertYuvToRgb env yBuffer uBuffer vBuffer
    width height yRowStride uvRowStride uvPixelStride outBuffer st = Some st.
Proof. intros Hres Hempty. by apply (convert_empty _ _ _ _ _ srcY srcU srcV dst). Qed.

Lemma empty_frame_noop_witness :
  convertYuvToRgb direct_env 1 2 3 0 2 2 1 1 4 (gray_state 7 7 7 7 [])
  = Some (gray_state 7 7 7 7 []) ∧
  convertYuvToRgb direct_env 1 2 3 2 (-1) 2 1 1 4 (gray_state 7 7 7 7 [])
  = Some (gray_state 7 7 7 7 []).
Proof.
  split.
  - apply (empty_frame_noop direct_env 1 2 3 4 (Ptr 1 0) (Ptr 2 0) (Ptr 3 0)
             (Ptr 4 0)); [by repeat split | left; lia].
  - apply (empty_frame_noop direct_env 1 2 3 4 (Ptr 1 0) (Ptr 2 0) (Ptr 3 0)
             (Ptr 4 0)); [by repeat split | right; lia].
Defined.

(** C10.  Per-pixel noninterference: valid calls return, and two calls
    with the same geometry that return, from any two states that agree on
    the three samples [yPlane[y*yRowStride + x]], [uPlane[uvIdx]],
    [vPlane[uvIdx]] with [uvIdx = (y/2)*uvRowStride + (x/2)*uvPixelStride],
    leave the same value in the slot [outBuffer[y*width + x]]. *)
Theorem pixel_noninterference
    env1 yBuffer1 uBuffer1 vBuffer1 outBuffer1 srcY1 srcU1 srcV1 dst1
    env2 yBuffer2 uBuffer2 vBuffer2 outBuffer2 srcY2 srcU2 srcV2 dst2
    width height yRowStride uvRowStride uvPixelStride st1 st2 x y :
  resolves env1 yBuffer1 uBuffer1 vBuffer1 outBuffer1 srcY1 srcU1 srcV1 dst1 →
  resolves env2 yBuffer2 uBuffer2 vBuffer2 outBuffer2 srcY2 srcU2 srcV2 dst2 →
  disjoint_out srcY1 srcU1 srcV1 dst1 →
  disjoint_out srcY2 srcU2 srcV2 dst2 →
  0 ≤ x < width → 0 ≤ y < height →
  load (heap st1) srcY1 (y * yRowStride + x)
  = load (heap st2) srcY2 (y * yRowStride + x) →
  load (heap st1) srcU1 (y / 2 * uvRowStride + x / 2 * uvPixelStride)
  = load (heap st2) srcU2 (y / 2 * uvRowStride + x / 2 * uvPixelStride) →
  load (heap st1) srcV1 (y / 2 * uvRowStride + x / 2 * uvPixelStride)
  = load (heap st2) srcV2 (y / 2 * uvRowStride + x / 2 * uvPixelStride) →
  (valid_call srcY1 srcU1 srcV1 dst1 width height yRowStride uvRowStride
     uvPixelStride (heap st1) →
   is_Some (convertYuvToRgb env1 yBuffer1 uBuffer1 vBuffer1
              width height yRowStride uvRowStride uvPixelStride outBuffer1 st1)) ∧
  (valid_call srcY2 srcU2 srcV2 dst2 width height yRowStride uvRowStride
     uvPixelStride (heap st2) →
   is_Some (convertYuvToRgb env2 yBuffer2 uBuffer2 vBuffer2
              width height yRowStride uvRowStride uvPixelStride outBuffer2 st2)) ∧
  ∀ st1' st2',
    convertYuvToRgb env1 yBuffer1 uBuffer1 vBuffer1
      width height yRowStride uvRowStride uvPixelStride outBuffer1 st1 = Some st1' →
    convertYuvToRgb env2 yBuffer2 uBuffer2 vBuffer2
      width height yRowStride uvRowStride uvPixelStride outBuffer2 st2 = Some st2' →
    load (heap st1') dst1 (y * width + x) = load (heap st2') dst2 (y * width + x) ∧
    is_Some (load (heap st1') dst1 (y * width + x)).
Proof.
  intros Hres1 Hres2 Hdis1 Hdis2 Hx Hy HY HU HV.
  split; [by apply (convert_total _ _ _ _ _ srcY1 srcU1 srcV1 dst1)|].
  split; [by apply (convert_total _ _ _ _ _ srcY2 srcU2 srcV2 dst2)|].
  intros st1' st2' Hrun1 Hrun2.
  by apply (convert_pixel_agree env1 env2 yBuffer1 uBuffer1 vBuffer1 outBuffer1
             yBuffer2 uBuffer2 vBuffer2 outBuffer2
             srcY1 srcU1 srcV1 dst1 srcY2 srcU2 srcV2 dst2
             width height yRowStride uvRowStride uvPixelStride
             Hres1 Hres2 Hdis1 Hdis2 st1 st1' st2 st2').
Qed.

(** The two 4x4 frames differ in [V[0]]; pixel [(2, 0)] reads the second
    chroma pair and is the same in both runs. *)
Lemma pixel_noninterference_witness :
  ∃ st1' st2',
    convertYuvToRgb direct_env 1 2 3 4 4 4 2 1 4 neutral_state = Some st1' ∧
    convertYuvToRgb direct_env 1 2 3 4 4 4 2 1 4 reddish_state = Some st2' ∧
    load (heap st1') (Ptr 4 0) (0 * 4 + 2) = load (heap st2') (Ptr 4 0) (0 * 4 + 2) ∧
    is_Some (load (heap st1') (Ptr 4 0) (0 * 4 + 2)).
Proof.
  destruct (pixel_noninterference
              direct_env 1 2 3 4 (Ptr 1 0) (Ptr 2 0) (Ptr 3 0) (Ptr 4 0)
              direct_env 1 2 3 4 (Ptr 1 0) (Ptr 2 0) (Ptr 3 0) (Ptr 4 0)
              4 4 4 2 1 neutral_state reddish_state 2 0)
    as (Hret1 & Hret2 & Hsame);
    [by repeat split | by repeat split | by repeat split | by repeat split
    | lia | lia | reflexivity | reflexivity | reflexivity |].
  destruct Hret1 as [st1' Hrun1]; [by apply frame4_valid|].
  destruct Hret2 as [st2' Hrun2]; [by apply frame4_valid|].
  exists st1', st2'. split; [exact Hrun1|]. split; [exact Hrun2|].
  exact (Hsame st1' st2' Hrun1 Hrun2).
Defined.

(** C6.  Frame of a valid call whose output lies in a block of its own: the
    call returns; what it appends to the trace is one store to each slot
    [outBuffer[0 .. width*height)], in row-major order, so every slot is
    written exactly once and nothing else is written; the value of each
    store is the value its slot holds at the end, and that is the pixel
    converted from the three samples of the initial planes; the call emits
    no log entry; every other block of the heap, the output cells outside
    the [width*height] slots and the three input planes are as before. *)
Theorem convert_frame
    env yBuffer uBuffer vBuffer outBuffer srcY srcU srcV dst
    width height yRowStride uvRowStride uvPixelStride st :
  resolves env yBuffer uBuffer vBuffer outBuffer srcY srcU srcV dst →
  disjoint_out srcY srcU srcV dst →
  valid_call srcY srcU srcV dst width height yRowStride uvRowStride
    uvPixelStride (heap st) →
  ∃ st' out new,
    convertYuvToRgb env yBuffer uBuffer vBuffer
      width height yRowStride uvRowStride uvPixelStride outBuffer st = Some st' ∧
    trace st' = trace st ++ new ∧
    new = slot_stores dst out (width * height) ∧
    (∀ k, 0 ≤ k < width * height → load (heap st') dst k = Some (out k)) ∧
    (∀ x y, 0 ≤ x < width → 0 ≤ y < height →
       ∃ bY bU bV,
         load (heap st) srcY (y * yRowStride + x) = Some bY ∧
         load (heap st) srcU (y / 2 * uvRowStride + x / 2 * uvPixelStride)
         = Some bU ∧
         load (heap st) srcV (y / 2 * uvRowStride + x / 2 * uvPixelStride)
         = Some bV ∧
         out (y * width + x) = pack_argb (yuv_to_rgb bY bU bV)) ∧
    writes_of new = (λ k, (blk dst, ofs dst + k)) <$> seqZ 0 (width * height) ∧
    NoDup (writes_of new) ∧
    (∀ a, a ∈ writes_of new ↔
          ∃ k, 0 ≤ k < width * height ∧ a = (blk dst, ofs dst + k)) ∧
    logs_of new = [] ∧
    (∀ k, 0 ≤ k < width * height → is_Some (load (heap st') dst k)) ∧
    (∀ b, b ≠ blk dst → heap st' !! b = heap st !! b) ∧
    (∀ j, ¬ (0 ≤ j < width * height) →
          load (heap st') dst j = load (heap st) dst j) ∧
    (∀ i, load (heap st') srcY i = load (heap st) srcY i) ∧
    (∀ i, load (heap st') srcU i = load (heap st) srcU i) ∧
    (∀ i, load (heap st') srcV i = load (heap st) srcV i).
Proof.
  intros Hres Hdis Hv.
  destruct (convert_loops_total _ _ _ _ _ _ _ _ _ Hdis st Hv)
    as (st' & Hrun & HI).
  assert (Hw0 : 0 < width) by by destruct Hv.
  assert (Hh0 : 0 < height) by by destruct Hv.
  destruct (convert_loops_stores _ _ _ _ _ _ _ _ _ st st' Hw0 Hrun)
    as (out & Htr & Hout).
  replace (Z.max 0 height * width) with (width * height) in Htr, Hout by lia.
  replace (height * width) with (width * height) in HI by lia.
  destruct HI as [Hf Hr Hd _].
  exists st', out, (slot_stores dst out (width * height)).
  split; [by rewrite (convert_resolved _ _ _ _ _ _ _ _ _ _ _ _ _ _ Hres)|].
  split; [done|]. split; [done|]. split; [done|].
  split.
  { intros x y Hx Hy.
    destruct (Hd y x) as (v & Hpx & Hload); [lia|done|nia|].
    apply pixel_argb_Some in Hpx as (_ & bY & bU & bV & HY & HU & HV & ->).
    rewrite (uvIdx_of_div uvRowStride uvPixelStride) in HU, HV by lia.
    exists bY, bU, bV. repeat (split; [done|]).
    rewrite Hout in Hload by nia. by injection Hload. }
  rewrite writes_of_slot_stores, logs_of_slot_stores.
  split; [done|].
  split.
  { apply NoDup_fmap_2; [|apply NoDup_seqZ].
    intros k k' Heq. injection Heq. lia. }
  split.
  { intros a. rewrite list_elem_of_fmap. setoid_rewrite elem_of_seqZ.
    split; intros (k & ? & ?); exists k; split; (done || lia). }
  split; [done|].
  split; [intros k Hk; rewrite Hout by done; by eexists|].
  destruct Hdis as (? & ? & ?).
  split; [done|]. split; [done|].
  repeat split; intros i; apply load_ext, Hf; congruence.
Qed.

Lemma convert_frame_witness :
  ∃ st',
    convertYuvToRgb direct_env 1 2 3 2 2 2 1 1 4 (gray_state 7 7 7 7 [])
    = Some st' ∧
    writes_of (trace st')
    = [(4%positive, 0); (4%positive, 1); (4%positive, 2); (4%positive, 3)] ∧
    load (heap st') (Ptr 4 0) 3 = Some 0xFF101010 ∧
    heap st' !! 1%positive = Some [16; 16; 16; 16].
Proof.
  destruct (convert_frame direct_env 1 2 3 4 (Ptr 1 0) (Ptr 2 0) (Ptr 3 0)
              (Ptr 4 0) 2 2 2 1 1 (gray_state 7 7 7 7 []))
    as (st' & out & new & Hrun & Ht & _ & Hout & Hpix & Hw & _ & _ & _ & _
        & Hf & _).
  - by repeat split.
  - by repeat split.
  - apply gray_valid.
  - exists st'. split; [exact Hrun|]. split; [|split].
    + rewrite Ht, writes_of_app, Hw. reflexivity.
    + rewrite Hout by lia.
      destruct (Hpix 1 1) as (bY & bU & bV & HY & HU & HV & Hv); [lia|lia|].
      vm_compute in HY, HU, HV.
      injection HY as <-. injection HU as <-. injection HV as <-.
      change (1 * 2 + 1) with 3 in Hv. rewrite Hv. reflexivity.
    + rewrite Hf by discriminate. reflexivity.
Defined.

(** C7.  Determinism: two valid calls with the same geometry, on planes
    that hold the same bytes, return and leave the same values in the
    [width*height] output slots, whatever the output buffers held before,
    wherever the buffers lie and whatever else the two states contain. *)
Theorem convert_deterministic
    env1 yBuffer1 uBuffer1 vBuffer1 outBuffer1 srcY1 srcU1 srcV1 dst1
    env2 yBuffer2 uBuffer2 vBuffer2 outBuffer2 srcY2 srcU2 srcV2 dst2
    width height yRowStride uvRowStride uvPixelStride st1 st2 :
  resolves env1 yBuffer1 uBuffer1 vBuffer1 outBuffer1 srcY1 srcU1 srcV1 dst1 →
  resolves env2 yBuffer2 uBuffer2 vBuffer2 outBuffer2 srcY2 srcU2 srcV2 dst2 →
  disjoint_out srcY1 srcU1 srcV1 dst1 →
  disjoint_out srcY2 srcU2 srcV2 dst2 →
  valid_call srcY1 srcU1 srcV1 dst1 width height yRowStride uvRowStride
    uvPixelStride (heap st1) →
  valid_call srcY2 srcU2 srcV2 dst2 width height yRowStride uvRowStride
    uvPixelStride (heap st2) →
  (∀ i, 0 ≤ i < yRowStride * height →
        load (heap st1) srcY1 i = load (heap st2) srcY2 i) →
  (∀ i, 0 ≤ i < uvRowStride * ((height + 1) / 2) →
        load (heap st1) srcU1 i = load (heap st2) srcU2 i) →
  (∀ i, 0 ≤ i < uvRowStride * ((height + 1) / 2) →
        load (heap st1) srcV1 i = load (heap st2) srcV2 i) →
  ∃ st1' st2',
    convertYuvToRgb env1 yBuffer1 uBuffer1 vBuffer1
      width height yRowStride uvRowStride uvPixelStride outBuffer1 st1 = Some st1' ∧
    convertYuvToRgb env2 yBuffer2 uBuffer2 vBuffer2
      width height yRowStride uvRowStride uvPixelStride outBuffer2 st2 = Some st2' ∧
    ∀ k, 0 ≤ k < width * height →
      load (heap st1') dst1 k = load (heap st2') dst2 k ∧
      is_Some (load (heap st1') dst1 k).
Proof.
  intros Hres1 Hres2 Hdis1 Hdis2 Hv1 Hv2 HY HU HV.
  destruct (convert_total _ _ _ _ _ _ _ _ _ _ _ _ _ _ Hres1 Hdis1 st1 Hv1)
    as [st1' Hrun1].
  destruct (convert_total _ _ _ _ _ _ _ _ _ _ _ _ _ _ Hres2 Hdis2 st2 Hv2)
    as [st2' Hrun2].
  exists st1', st2'. split; [done|]. split; [done|].
  intros k Hk.
  assert (Hw : 0 < width) by by destruct Hv1.
  pose proof (Z.mod_pos_bound k width Hw) as Hx.
  pose proof (Z.div_mod k width) as Hdm.
  assert (Hy : 0 ≤ k / width < height).
  { split; [apply Z.div_pos; lia|]. apply Z.div_lt_upper_bound; lia. }
  assert (k = k / width * width + k mod width) as -> by lia.
  destruct (valid_indices _ _ _ _ _ _ _ _ _ _ _ _ Hv1 Hy Hx)
    as (_ & HiY & _ & _ & HiUV & _).
  rewrite (uvIdx_of_div uvRowStride uvPixelStride) in HiUV by lia.
  apply (convert_pixel_agree
           env1 env2 yBuffer1 uBuffer1 vBuffer1 outBuffer1
           yBuffer2 uBuffer2 vBuffer2 outBuffer2
           srcY1 srcU1 srcV1 dst1 srcY2 srcU2 srcV2 dst2
           width height yRowStride uvRowStride uvPixelStride
           Hres1 Hres2 Hdis1 Hdis2 st1 st1' st2 st2'); try done.
  - by apply HY.
  - by apply HU.
  - by apply HV.
Qed.

Lemma convert_deterministic_witness :
  ∃ st1' st2',
    convertYuvToRgb direct_env 1 2 3 2 2 2 1 1 4 (gray_state 7 7 7 7 [])
    = Some st1' ∧
    convertYuvToRgb direct_env 1 2 3 2 2 2 1 1 4
      (gray_state 1 2 3 4 [EvLog ANDROID_LOG_ERROR TAG "earlier"])
    = Some st2' ∧
    load (heap st1') (Ptr 4 0) 3 = load (heap st2') (Ptr 4 0) 3.
Proof.
  destruct (convert_deterministic
              direct_env 1 2 3 4 (Ptr 1 0) (Ptr 2 0) (Ptr 3 0) (Ptr 4 0)
              direct_env 1 2 3 4 (Ptr 1 0) (Ptr 2 0) (Ptr 3 0) (Ptr 4 0)
              2 2 2 1 1 (gray_state 7 7 7 7 [])
              (gray_state 1 2 3 4 [EvLog ANDROID_LOG_ERROR TAG "earlier"]))
    as (st1' & st2' & Hrun1 & Hrun2 & Hsame).
  - by repeat split.
  - by repeat split.
  - by repeat split.
  - by repeat split.
  - apply gray_valid.
  - apply gray_valid.
  - intros i _. reflexivity.
  - intros i _. reflexivity.
  - intros i _. reflexivity.
  - exists st1', st2'. split; [exact Hrun1|]. split; [exact Hrun2|].
    apply Hsame. lia.
Defined.

(** C5, as stated, fails: the two 4x4 frames differ in [V[0]] only, and the
    red channel of pixel [(0, 0)] (luma 250) moves from 250 to 255 while
    that of pixel [(1, 0)] (luma 100) moves from 100 to 255. *)
Lemma same_delta_counterexample :
  heap reddish_state
  = <[3%positive := <[0%nat := 255]> [128; 128; 128; 128]]> (heap neutral_state) ∧
  ∃ st1' st2' p q p' q',
    convertYuvToRgb direct_env 1 2 3 4 4 4 2 1 4 neutral_state = Some st1' ∧
    convertYuvToRgb direct_env 1 2 3 4 4 4 2 1 4 reddish_state = Some st2' ∧
    load (heap st1') (Ptr 4 0) (0 * 4 + 0) = Some p ∧
    load (heap st2') (Ptr 4 0) (0 * 4 + 0) = Some q ∧
    load (heap st1') (Ptr 4 0) (0 * 4 + 1) = Some p' ∧
    load (heap st2') (Ptr 4 0) (0 * 4 + 1) = Some q' ∧
    red_of q - red_of p = 5 ∧ red_of q' - red_of p' = 155 ∧
    red_of q - red_of p ≠ red_of q' - red_of p'.
Proof.
  split; [vm_compute; reflexivity|].
  do 6 eexists.
  split; [vm_compute; reflexivity|].
  split; [vm_compute; reflexivity|].
  split; [vm_compute; reflexivity|].
  split; [vm_compute; reflexivity|].
  split; [vm_compute; reflexivity|].
  split; [vm_compute; reflexivity|].
  split; [vm_compute; reflexivity|].
  split; [vm_compute; reflexivity|].
  vm_compute. discriminate.
Qed.

(** C5, amended.  For a 4x4 frame: valid calls return; the four luma
    positions (0,0), (1,0), (0,1), (1,1) read the chroma pair at index 0;
    for two calls that return, when the two runs have the same luma plane
    (only the chroma samples changed), each channel of any two of the four
    output pixels changes by the same delta provided the channel is at
    neither clamp bound (0 or 255) in the two pixels and the two runs; when
    [yRowStride >= width] and the two runs differ in one luma sample only,
    every other output pixel is the same in the two runs. *)
Theorem shared_chroma
    env yBuffer uBuffer vBuffer outBuffer srcY srcU srcV dst
    yRowStride uvRowStride uvPixelStride st1 st2 :
  resolves env yBuffer uBuffer vBuffer outBuffer srcY srcU srcV dst →
  disjoint_out srcY srcU srcV dst →
  (∀ st, valid_call srcY srcU srcV dst 4 4 yRowStride uvRowStride
           uvPixelStride (heap st) →
         is_Some (convertYuvToRgb env yBuffer uBuffer vBuffer
                    4 4 yRowStride uvRowStride uvPixelStride outBuffer st)) ∧
  (∀ x y, 0 ≤ x ≤ 1 → 0 ≤ y ≤ 1 →
     y / 2 * uvRowStride + x / 2 * uvPixelStride = 0) ∧
  ∀ st1' st2',
  convertYuvToRgb env yBuffer uBuffer vBuffer
    4 4 yRowStride uvRowStride uvPixelStride outBuffer st1 = Some st1' →
  convertYuvToRgb env yBuffer uBuffer vBuffer
    4 4 yRowStride uvRowStride uvPixelStride outBuffer st2 = Some st2' →
  ((∀ i, load (heap st1) srcY i = load (heap st2) srcY i) →
   ∀ x y x' y' p q p' q',
     0 ≤ x ≤ 1 → 0 ≤ y ≤ 1 → 0 ≤ x' ≤ 1 → 0 ≤ y' ≤ 1 →
     load (heap st1') dst (y * 4 + x) = Some p →
     load (heap st2') dst (y * 4 + x) = Some q →
     load (heap st1') dst (y' * 4 + x') = Some p' →
     load (heap st2') dst (y' * 4 + x') = Some q' →
     (unsaturated (red_of p) → unsaturated (red_of q) →
      unsaturated (red_of p') → unsaturated (red_of q') →
      red_of q - red_of p = red_of q' - red_of p') ∧
     (unsaturated (green_of p) → unsaturated (green_of q) →
      unsaturated (green_of p') → unsaturated (green_of q') →
      green_of q - green_of p = green_of q' - green_of p') ∧
     (unsaturated (blue_of p) → unsaturated (blue_of q) →
      unsaturated (blue_of p') → unsaturated (blue_of q') →
      blue_of q - blue_of p = blue_of q' - blue_of p')) ∧
  (4 ≤ yRowStride →
   ∀ x0 y0, 0 ≤ x0 < 4 → 0 ≤ y0 < 4 →
     (∀ i, i ≠ y0 * yRowStride + x0 →
           load (heap st1) srcY i = load (heap st2) srcY i) →
     (∀ i, load (heap st1) srcU i = load (heap st2) srcU i) →
     (∀ i, load (heap st1) srcV i = load (heap st2) srcV i) →
     ∀ x y, 0 ≤ x < 4 → 0 ≤ y < 4 → (x, y) ≠ (x0, y0) →
       load (heap st1') dst (y * 4 + x) = load (heap st2') dst (y * 4 + x)).
Proof.
  intros Hres Hdis.
  assert (Hidx : ∀ x y, 0 ≤ x ≤ 1 → 0 ≤ y ≤ 1 →
            y / 2 * uvRowStride + x / 2 * uvPixelStride = 0).
  { intros x y Hx Hy.
    assert (x / 2 = 0) as -> by (Z.to_euclidean_division_equations; lia).
    assert (y / 2 = 0) as -> by (Z.to_euclidean_division_equations; lia).
    lia. }
  split.
  { intros st. by apply (convert_total _ _ _ _ _ srcY srcU srcV dst). }
  split; [exact Hidx|].
  intros st1' st2' Hrun1 Hrun2. split.
  - intros HY x y x' y' p q p' q' Hx Hy Hx' Hy' Hp Hq Hp' Hq'.
    pose proof (convert_pixel_value env yBuffer uBuffer vBuffer outBuffer
                  srcY srcU srcV dst 4 4 yRowStride uvRowStride uvPixelStride
                  Hres Hdis) as Hval.
    destruct (Hval st1 st1' x y Hrun1) as (a1 & b1 & c1 & Ha1 & Hb1 & Hc1 & Ho1);
      [lia..|].
    destruct (Hval st2 st2' x y Hrun2) as (a2 & b2 & c2 & Ha2 & Hb2 & Hc2 & Ho2);
      [lia..|].
    destruct (Hval st1 st1' x' y' Hrun1)
      as (a1' & b1' & c1' & Ha1' & Hb1' & Hc1' & Ho1'); [lia..|].
    destruct (Hval st2 st2' x' y' Hrun2)
      as (a2' & b2' & c2' & Ha2' & Hb2' & Hc2' & Ho2'); [lia..|].
    rewrite Hidx in Hb1, Hc1, Hb2, Hc2, Hb1', Hc1', Hb2', Hc2' by done.
    rewrite HY in Ha1, Ha1'.
    assert (a2 = a1) as -> by congruence.
    assert (a2' = a1') as -> by congruence.
    assert (b1' = b1) as -> by congruence.
    assert (c1' = c1) as -> by congruence.
    assert (b2' = b2) as -> by congruence.
    assert (c2' = c2) as -> by congruence.
    assert (p = pack_argb (yuv_to_rgb a1 b1 c1)) as -> by congruence.
    assert (q = pack_argb (yuv_to_rgb a1 b2 c2)) as -> by congruence.
    assert (p' = pack_argb (yuv_to_rgb a1' b1 c1)) as -> by congruence.
    assert (q' = pack_argb (yuv_to_rgb a1' b2 c2)) as -> by congruence.
    destruct (channels_of_pixel a1 b1 c1) as (-> & -> & ->).
    destruct (channels_of_pixel a1 b2 c2) as (-> & -> & ->).
    destruct (channels_of_pixel a1' b1 c1) as (-> & -> & ->).
    destruct (channels_of_pixel a1' b2 c2) as (-> & -> & ->).
    unfold unsaturated.
    repeat split; intros H1 H2 H3 H4;
      rewrite !clamp_unsaturated by done;
      unfold raw_R, raw_G, raw_B; lia.
  - intros HyS x0 y0 Hx0 Hy0 HY HU HV x y Hx Hy Hne.
    apply (convert_pixel_agree env env yBuffer uBuffer vBuffer outBuffer
             yBuffer uBuffer vBuffer outBuffer
             srcY srcU srcV dst srcY srcU srcV dst
             4 4 yRowStride uvRowStride uvPixelStride
             Hres Hres Hdis Hdis st1 st1' st2 st2'); try done.
    apply HY. intros Heq.
    destruct (row_major_inj yRowStride y x y0 x0) as [-> ->]; [lia|lia|done|].
    by apply Hne.
Qed.

(** In the two frames that differ in [V[0]], the green channels of
    pixels (0,0) and (1,0) are unsaturated and both move by -90; in the
    frame with one luma sample changed, pixel (0,0) is unchanged. *)
Lemma shared_chroma_witness :
  ∃ st1' st2' st3',
    convertYuvToRgb direct_env 1 2 3 4 4 4 2 1 4 neutral_state = Some st1' ∧
    convertYuvToRgb direct_env 1 2 3 4 4 4 2 1 4 reddish_state = Some st2' ∧
    convertYuvToRgb direct_env 1 2 3 4 4 4 2 1 4 dimmed_state = Some st3' ∧
    (∀ p q p' q',
       load (heap st1') (Ptr 4 0) (0 * 4 + 0) = Some p →
       load (heap st2') (Ptr 4 0) (0 * 4 + 0) = Some q →
       load (heap st1') (Ptr 4 0) (0 * 4 + 1) = Some p' →
       load (heap st2') (Ptr 4 0) (0 * 4 + 1) = Some q' →
       green_of q - green_of p = green_of q' - green_of p') ∧
    load (heap st1') (Ptr 4 0) (0 * 4 + 0) = load (heap st3') (Ptr 4 0) (0 * 4 + 0).
Proof.
  pose (st1' := default neutral_state
                  (convertYuvToRgb direct_env 1 2 3 4 4 4 2 1 4 neutral_state)).
  pose (st2' := default neutral_state
                  (convertYuvToRgb direct_env 1 2 3 4 4 4 2 1 4 reddish_state)).
  pose (st3' := default neutral_state
                  (convertYuvToRgb direct_env 1 2 3 4 4 4 2 1 4 dimmed_state)).
  assert (Hrun1 : convertYuvToRgb direct_env 1 2 3 4 4 4 2 1 4 neutral_state
                  = Some st1') by (vm_compute; reflexivity).
  assert (Hrun2 : convertYuvToRgb direct_env 1 2 3 4 4 4 2 1 4 reddish_state
                  = Some st2') by (vm_compute; reflexivity).
  assert (Hrun3 : convertYuvToRgb direct_env 1 2 3 4 4 4 2 1 4 dimmed_state
                  = Some st3') by (vm_compute; reflexivity).
  assert (Hres : resolves direct_env 1 2 3 4 (Ptr 1 0) (Ptr 2 0) (Ptr 3 0)
                   (Ptr 4 0)) by by repeat split.
  assert (Hdis : disjoint_out (Ptr 1 0) (Ptr 2 0) (Ptr 3 0) (Ptr 4 0))
    by by repeat split.
  exists st1', st2', st3'.
  split; [exact Hrun1|]. split; [exact Hrun2|]. split; [exact Hrun3|].
  split.
  - destruct (shared_chroma direct_env 1 2 3 4 (Ptr 1 0) (Ptr 2 0) (Ptr 3 0)
                (Ptr 4 0) 4 2 1 neutral_state reddish_state
                Hres Hdis) as (_ & _ & Hruns).
    destruct (Hruns st1' st2' Hrun1 Hrun2) as (Hchroma & _).
    intros p q p' q' Hp Hq Hp' Hq'.
    destruct (Hchroma (λ i, eq_refl) 0 0 1 0 p q p' q') as (_ & HG & _);
      [lia | lia | lia | lia | exact Hp | exact Hq | exact Hp' | exact Hq' |].
    apply HG.
    + vm_compute in Hp. injection Hp as <-. vm_compute. by split.
    + vm_compute in Hq. injection Hq as <-. vm_compute. by split.
    + vm_compute in Hp'. injection Hp' as <-. vm_compute. by split.
    + vm_compute in Hq'. injection Hq' as <-. vm_compute. by split.
  - destruct (shared_chroma direct_env 1 2 3 4 (Ptr 1 0) (Ptr 2 0) (Ptr 3 0)
                (Ptr 4 0) 4 2 1 neutral_state dimmed_state
                Hres Hdis) as (_ & _ & Hruns).
    destruct (Hruns st1' st3' Hrun1 Hrun3) as (_ & Hluma).
    apply (Hluma ltac:(lia) 1 0); [lia | lia | | | | lia | lia | ].
    + intros i Hi. unfold load. cbn.
      case_decide; [|done].
      destruct (Z.to_nat (0 + i)) as [|[|n]] eqn:En; [done|lia|done].
    + intros i. reflexivity.
    + intros i. reflexivity.
    + intros [=].
Defined.

(** * Further properties *)

(** ** Defined behaviour *)

Lemma same_shape_refl m : same_shape m m.
Proof. by intros q j. Qed.

Lemma same_shape_trans m1 m2 m3 :
  same_shape m1 m2 → same_shape m2 m3 → same_shape m1 m3.
Proof. intros H12 H23 q j. by rewrite (H12 q j). Qed.

(** A store changes no length: the same cells stay addressable. *)
Lemma store_same_shape st p i v st' :
  store st p i v = Some st' → same_shape (heap st') (heap st).
Proof.
  intros (cells & Hc & Hr & ->)%store_Some q j.
  rewrite !load_is_Some. cbn.
  destruct (decide (blk q = blk p)) as [Heq|Hne].
  - rewrite Heq, lookup_insert_eq, Hc. split.
    + intros (c & [= <-] & Hlen). rewrite length_insert in Hlen. eauto.
    + intros (c & [= <-] & Hlen). eexists. split; [done|].
      by rewrite length_insert.
  - by rewrite lookup_insert_ne.
Qed.

(** When the body keeps an invariant under which its success at index [i]
    is the condition [D i], the loop succeeds exactly when [D] holds at
    every index it visits. *)
Lemma for_loop_defined (I : state → Prop) (D : Z → Prop) body n lo st :
  I st →
  (∀ i s s', lo ≤ i < lo + Z.of_nat n → I s → body i s = Some s' → I s') →
  (∀ i s, lo ≤ i < lo + Z.of_nat n → I s → (is_Some (body i s) ↔ D i)) →
  is_Some (for_loop body n lo st) ↔ ∀ i, lo ≤ i < lo + Z.of_nat n → D i.
Proof.
  revert lo st. induction n as [|n IH]; intros lo st HI Hkeep Hdef.
  - split; [intros _ i Hi; lia|]. intros _. by eexists.
  - cbn [for_loop]. split.
    + intros [st' Hrun]. apply bind_Some in Hrun as (s1 & Hb & Hrest).
      intros i Hi. destruct (decide (i = lo)) as [->|Hne].
      * apply (Hdef lo st); [lia|done|by eexists].
      * apply (IH (lo + 1) s1); [| | |by eexists|lia].
        -- apply (Hkeep lo st); [lia|done..].
        -- intros j s s' Hj. apply Hkeep. lia.
        -- intros j s Hj. apply Hdef. lia.
    + intros HD.
      destruct (proj2 (Hdef lo st ltac:(lia) HI)) as [s1 Hb]; [apply HD; lia|].
      rewrite Hb. cbn. apply (IH (lo + 1) s1).
      * apply (Hkeep lo st); [lia|done..].
      * intros j s s' Hj. apply Hkeep. lia.
      * intros j s Hj. apply Hdef. lia.
      * intros j Hj. apply HD. lia.
Qed.

Section DefinedRun.

Variables (srcY srcU srcV dst : ptr).
Variables (width height yRowStride uvRowStride uvPixelStride : Z).

Local Abbreviation px := (pixel_argb srcY srcU srcV yRowStride uvRowStride uvPixelStride).
Local Abbreviation step :=
  (convert_pixel srcY srcU srcV dst width yRowStride uvRowStride uvPixelStride).
Local Abbreviation loops :=
  (convert_loops srcY srcU srcV dst width height yRowStride uvRowStride uvPixelStride).
Local Abbreviation defined :=
  (pixel_defined srcY srcU srcV dst width yRowStride uvRowStride uvPixelStride).

Lemma pixel_argb_is_Some m y x :
  is_Some (px m y x) ↔
  idx_in_int yRowStride uvRowStride uvPixelStride y x ∧
  is_Some (load m srcY (yIdx_of yRowStride y x)) ∧
  is_Some (load m srcU (uvIdx_of uvRowStride uvPixelStride y x)) ∧
  is_Some (load m srcV (uvIdx_of uvRowStride uvPixelStride y x)).
Proof.
  split.
  - intros [v (Hi & bY & bU & bV & HY & HU & HV & _)%pixel_argb_Some].
    rewrite HY, HU, HV. split; [done|]. repeat split; by eexists.
  - intros (Hi & [bY HY] & [bU HU] & [bV HV]).
    eexists. apply pixel_argb_Some. split; [done|]. by exists bY, bU, bV.
Qed.

Lemma convert_pixel_is_Some y x s :
  is_Some (step y x s) ↔ defined (heap s) y x.
Proof.
  unfold pixel_defined. split.
  - intros [s' (v & Hv & ? & ? & Hst)%convert_pixel_Some].
    destruct (proj1 (pixel_argb_is_Some (heap s) y x)) as (? & ? & ? & ?);
      [by eexists|].
    repeat (split; [done|]).
    apply (proj1 (store_is_Some s dst (y * width + x) v)). by eexists.
  - intros (Hi & HY & HU & HV & ? & ? & Hdst).
    destruct (proj2 (pixel_argb_is_Some (heap s) y x)) as [v Hv]; [done|].
    destruct (proj2 (store_is_Some s dst (y * width + x) v) Hdst) as [s' Hst].
    exists s'. apply convert_pixel_Some. by exists v.
Qed.

Lemma pixel_defined_shape m1 m2 y x :
  same_shape m1 m2 → defined m1 y x ↔ defined m2 y x.
Proof. intros Hs. unfold pixel_defined. by rewrite !(Hs _ _). Qed.

Lemma convert_pixel_shape y x s s' :
  step y x s = Some s' → same_shape (heap s') (heap s).
Proof.
  intros (v & _ & _ & _ & Hst)%convert_pixel_Some.
  by apply (store_same_shape _ _ _ _ _ Hst).
Qed.

Lemma convert_row_shape st y s s' :
  same_shape (heap s) (heap st) →
  for_range width (λ x, step y x) s = Some s' →
  same_shape (heap s') (heap st).
Proof.
  intros Hs Hrow. unfold for_range in Hrow.
  apply (for_loop_inv (λ _ t, same_shape (heap t) (heap st))) in Hrow;
    [done|done|].
  intros x t t' _ Ht Hstep.
  eapply same_shape_trans; [by eapply convert_pixel_shape|done].
Qed.

(** A run keeps the addressable cells. *)
Lemma convert_loops_shape st st' :
  loops st = Some st' → same_shape (heap st') (heap st).
Proof.
  unfold convert_loops, for_range at 1. intros Hrun.
  apply (for_loop_inv (λ _ t, same_shape (heap t) (heap st))) in Hrun;
    [done|apply same_shape_refl|].
  intros y s s' _. apply convert_row_shape.
Qed.

(** The loops return exactly when every pixel of the frame is defined in
    the initial heap. *)
Lemma convert_loops_defined st :
  is_Some (loops st) ↔
  frame_defined srcY srcU srcV dst width height yRowStride uvRowStride
    uvPixelStride (heap st).
Proof.
  unfold convert_loops, for_range at 1.
  rewrite (for_loop_defined (λ s, same_shape (heap s) (heap st))
             (λ y, ∀ x, 0 ≤ x < width → defined (heap st) y x)).
  - unfold frame_defined. split.
    + intros H y x Hy Hx. apply H; [lia|done].
    + intros H y Hy x Hx. apply H; [lia|done].
  - apply same_shape_refl.
  - intros y s s' _. apply convert_row_shape.
  - intros y s _ Hs. unfold for_range.
    rewrite (for_loop_defined (λ t, same_shape (heap t) (heap st))
               (λ x, defined (heap st) y x)).
    + split; intros H x Hx; apply H; lia.
    + done.
    + intros x t t' _ Ht Hstep.
      eapply same_shape_trans; [by eapply convert_pixel_shape|done].
    + intros x t _ Ht. rewrite convert_pixel_is_Some.
      by apply pixel_defined_shape.
Qed.

End DefinedRun.

(** X1.  A call with four addresses whose output lies in a block of its
    own (the heap holds one cell per index, so an output that shares a block
    with a plane is outside what it describes) returns normally exactly
    when, for every pixel of the frame, the index computations fit an [int]
    and the three samples and the output slot are addressable; no relation
    between the strides and the size is needed, and nothing less will do. *)
Theorem convert_defined_iff
    env yBuffer uBuffer vBuffer outBuffer srcY srcU srcV dst
    width height yRowStride uvRowStride uvPixelStride st :
  resolves env yBuffer uBuffer vBuffer outBuffer srcY srcU srcV dst →
  disjoint_out srcY srcU srcV dst →
  is_Some (convertYuvToRgb env yBuffer uBuffer vBuffer
             width height yRowStride uvRowStride uvPixelStride outBuffer st) ↔
  frame_defined srcY srcU srcV dst width height yRowStride uvRowStride
    uvPixelStride (heap st).
Proof.
  intros Hres _.
  rewrite (convert_resolved _ _ _ _ _ _ _ _ _ _ _ _ _ _ Hres).
  apply convert_loops_defined.
Qed.

(** The complete 2x2 frame returns; with a luma plane one sample short
    the last pixel reads out of bounds. *)
Lemma convert_defined_iff_witness :
  is_Some (convertYuvToRgb direct_env 1 2 3 2 2 2 1 1 4 (gray_state 0 0 0 0 [])) ∧
  convertYuvToRgb direct_env 1 2 3 2 2 2 1 1 4 short_state = None.
Proof.
  assert (Hres : resolves direct_env 1 2 3 4 (Ptr 1 0) (Ptr 2 0) (Ptr 3 0)
                   (Ptr 4 0)) by by repeat split.
  assert (Hdis : disjoint_out (Ptr 1 0) (Ptr 2 0) (Ptr 3 0) (Ptr 4 0))
    by by repeat split.
  split.
  - apply (convert_defined_iff direct_env 1 2 3 4 _ _ _ _ 2 2 2 1 1 _ Hres Hdis).
    intros y x Hy Hx.
    assert ((y = 0 ∨ y = 1) ∧ (x = 0 ∨ x = 1)) as [[-> | ->] [-> | ->]] by lia;
      repeat split; first [closed_arith | by eexists].
  - apply eq_None_not_Some. intros Hsome.
    apply (convert_defined_iff direct_env 1 2 3 4 _ _ _ _ 2 2 2 1 1 _ Hres Hdis)
      in Hsome.
    destruct (Hsome 1 1) as (_ & HY & _); [lia|lia|].
    by destruct HY as [b [=]].
Defined.

(** In a tight call every pixel is defined. *)
Lemma tight_frame_defined srcY srcU srcV dst
    width height yRowStride uvRowStride uvPixelStride m :
  tight_call srcY srcU srcV dst width height yRowStride uvRowStride
    uvPixelStride m →
  frame_defined srcY srcU srcV dst width height yRowStride uvRowStride
    uvPixelStride m.
Proof.
  intros [Hw Hh HyS HuvS HpS HY HU HV HO (HsY & HsUV & HsO)] y x Hy Hx.
  unfold pixel_defined, idx_in_int, yIdx_of, uvIdx_of in *.
  rewrite !Z.quot_div_nonneg by lia.
  assert (0 ≤ y / 2 ∧ y / 2 ≤ (height + 1) / 2 - 1) as [? ?]
    by (Z.to_euclidean_division_equations; lia).
  assert (0 ≤ x / 2 ∧ x / 2 ≤ (width + 1) / 2 - 1) as [? ?]
    by (Z.to_euclidean_division_equations; lia).
  generalize dependent (y / 2). generalize dependent (x / 2).
  generalize dependent ((height + 1) / 2).
  generalize dependent ((width + 1) / 2).
  intros cw ch HU HV HsUV uvX ? ? uvY ? ?.
  assert (0 ≤ y * yRowStride ≤ (height - 1) * yRowStride) by nia.
  assert (0 ≤ uvY * uvRowStride ≤ (ch - 1) * uvRowStride) by nia.
  assert (0 ≤ uvX * uvPixelStride ≤ (cw - 1) * uvPixelStride) by nia.
  assert (0 ≤ y * width ∧ y * width + x < width * height) by nia.
  unfold in_int, INT_MIN in *. change (2 ^ 31) with 2147483648.
  repeat split; try lia.
  - apply HY. lia.
  - apply HU. lia.
  - apply HV. lia.
  - apply HO. lia.
Qed.

(** X2.  A call returns as soon as the planes reach to the last sample
    read: [(height-1)*yRowStride + width] luma samples and
    [(ceil(height/2)-1)*uvRowStride + (ceil(width/2)-1)*uvPixelStride + 1]
    samples of each chroma plane, with strides that are only non-negative.
    No padding after the last row is read, so interleaved chroma planes
    whose second plane starts one sample late and ends with the block are
    accepted. *)
Theorem convert_total_tight
    env yBuffer uBuffer vBuffer outBuffer srcY srcU srcV dst
    width height yRowStride uvRowStride uvPixelStride st :
  resolves env yBuffer uBuffer vBuffer outBuffer srcY srcU srcV dst →
  tight_call srcY srcU srcV dst width height yRowStride uvRowStride
    uvPixelStride (heap st) →
  is_Some (convertYuvToRgb env yBuffer uBuffer vBuffer
             width height yRowStride uvRowStride uvPixelStride outBuffer st).
Proof.
  intros Hres Ht.
  rewrite (convert_resolved _ _ _ _ _ _ _ _ _ _ _ _ _ _ Hres).
  by apply convert_loops_defined, tight_frame_defined.
Qed.

(** The 4x2 frame with interleaved chroma: the [V] plane has three
    addressable samples where [uvRowStride * rows] is four. *)
Lemma convert_total_tight_witness :
  is_Some (convertYuvToRgb interleaved_env 1 2 3 4 2 4 4 2 4 interleaved_state) ∧
  ¬ addressable (heap interleaved_state) (Ptr 2 1) (4 * ((2 + 1) / 2)).
Proof.
  split.
  - apply (convert_total_tight interleaved_env 1 2 3 4
             (Ptr 1 0) (Ptr 2 0) (Ptr 2 1) (Ptr 4 0)); [by repeat split|].
    split; try closed_arith.
    + by apply (addressable_block _ _ _ [50; 60; 70; 80; 90; 100; 110; 120]).
    + by apply (addressable_block _ _ _ [128; 255; 0; 128]).
    + by apply (addressable_block _ _ _ [128; 255; 0; 128]).
    + by apply (addressable_block _ _ _ (replicate 8 0)).
  - intros Ha. destruct (Ha 3) as [b Hb]; [closed_arith|]. discriminate Hb.
Defined.

(** ** Running the converter again, padding, shared chroma *)

Lemma load_same_block m p q i :
  blk p = blk q → load m p i = load m q (ofs p + i - ofs q).
Proof.
  intros Hb. unfold load. rewrite Hb.
  by replace (ofs q + (ofs p + i - ofs q)) with (ofs p + i) by lia.
Qed.

(** Two heaps that agree outside a block and on every cell reached from a
    pointer into that block hold the same cells. *)
Lemma same_cells_block (m1 m2 : mem) dst :
  (∀ b, b ≠ blk dst → m1 !! b = m2 !! b) →
  (∀ j, load m1 dst j = load m2 dst j) →
  same_cells m1 m2.
Proof.
  intros Hf Hd q j. destruct (decide (blk q = blk dst)) as [Heq|Hne].
  - by rewrite !(load_same_block _ q dst j Heq).
  - by apply load_ext, Hf.
Qed.

Lemma slot_decompose w k :
  0 < w → 0 ≤ k →
  k = k / w * w + k mod w ∧ 0 ≤ k / w ∧ 0 ≤ k mod w < w.
Proof.
  intros Hw Hk. pose proof (Z.div_mod k w). pose proof (Z.mod_pos_bound k w Hw).
  split; [lia|]. split; [apply Z.div_pos; lia|done].
Qed.

Lemma frame_defined_shape srcY srcU srcV dst
    width height yRowStride uvRowStride uvPixelStride m1 m2 :
  same_shape m1 m2 →
  frame_defined srcY srcU srcV dst width height yRowStride uvRowStride
    uvPixelStride m1 →
  frame_defined srcY srcU srcV dst width height yRowStride uvRowStride
    uvPixelStride m2.
Proof.
  intros Hs Hd y x Hy Hx.
  by apply (pixel_defined_shape _ _ _ _ _ _ _ _ m1 m2 y x Hs), Hd.
Qed.

(** X3.  Running the converter again on the state a call returned: the
    second call returns too and leaves every cell of the heap as the first
    call left it. *)
Theorem convert_idempotent
    env yBuffer uBuffer vBuffer outBuffer srcY srcU srcV dst
    width height yRowStride uvRowStride uvPixelStride st st' :
  resolves env yBuffer uBuffer vBuffer outBuffer srcY srcU srcV dst →
  disjoint_out srcY srcU srcV dst →
  convertYuvToRgb env yBuffer uBuffer vBuffer
    width height yRowStride uvRowStride uvPixelStride outBuffer st = Some st' →
  ∃ st'',
    convertYuvToRgb env yBuffer uBuffer vBuffer
      width height yRowStride uvRowStride uvPixelStride outBuffer st' = Some st'' ∧
    same_cells (heap st'') (heap st').
Proof.
  intros Hres Hdis Hrun.
  destruct (decide (width ≤ 0 ∨ height ≤ 0)) as [Hempty|Hpos].
  { rewrite (convert_empty _ _ _ _ _ _ _ _ _ _ _ _ _ _ Hres st Hempty) in Hrun.
    injection Hrun as <-. exists st. split; [|done].
    by apply (convert_empty _ _ _ _ _ srcY srcU srcV dst). }
  assert (Hw : 0 < width) by lia. assert (Hh : 0 < height) by lia.
  assert (is_Some (convertYuvToRgb env yBuffer uBuffer vBuffer
            width height yRowStride uvRowStride uvPixelStride outBuffer st'))
    as [st'' Hrun'].
  { rewrite (convert_resolved _ _ _ _ _ _ _ _ _ _ _ _ _ _ Hres) in *.
    apply convert_loops_defined.
    apply (frame_defined_shape _ _ _ _ _ _ _ _ _ (heap st)).
    - intros q j. symmetry. by apply (convert_loops_shape _ _ _ _ _ _ _ _ _ _ _ Hrun).
    - apply convert_loops_defined. by eexists. }
  exists st''. split; [done|].
  destruct (convert_Inv _ _ _ _ _ _ _ _ _ _ _ _ _ _ Hres Hdis st st' Hw Hh Hrun)
    as [Hf1 _ Hd1 _].
  destruct (convert_Inv _ _ _ _ _ _ _ _ _ _ _ _ _ _ Hres Hdis st' st'' Hw Hh Hrun')
    as [Hf2 Hr2 Hd2 _].
  apply (same_cells_block _ _ dst); [done|].
  intros j. destruct (decide (0 ≤ j < width * height)) as [Hj|Hj];
    [|by apply Hr2].
  destruct (slot_decompose width j) as (Hdec & Hy & Hx); [lia..|].
  assert (j / width < height) by (apply Z.div_lt_upper_bound; lia).
  rewrite Hdec.
  destruct (Hd1 (j / width) (j mod width)) as (v1 & Hv1 & ->); [done|done|lia|].
  destruct (Hd2 (j / width) (j mod width)) as (v2 & Hv2 & ->); [done|done|lia|].
  rewrite (px_frame _ _ _ _ _ _ _ Hdis st st') in Hv2 by done.
  congruence.
Qed.

Lemma convert_idempotent_witness :
  ∃ st' st'',
    convertYuvToRgb direct_env 1 2 3 4 4 4 2 1 4 reddish_state = Some st' ∧
    convertYuvToRgb direct_env 1 2 3 4 4 4 2 1 4 st' = Some st'' ∧
    same_cells (heap st'') (heap st').
Proof.
  pose (st' := default neutral_state
                 (convertYuvToRgb direct_env 1 2 3 4 4 4 2 1 4 reddish_state)).
  assert (Hrun : convertYuvToRgb direct_env 1 2 3 4 4 4 2 1 4 reddish_state
                 = Some st') by (vm_compute; reflexivity).
  destruct (convert_idempotent direct_env 1 2 3 4 (Ptr 1 0) (Ptr 2 0) (Ptr 3 0)
              (Ptr 4 0) 4 4 4 2 1 reddish_state st') as (st'' & Hrun' & Hsame);
    [by repeat split | by repeat split | exact Hrun |].
  exists st', st''. split; [exact Hrun|]. split; [exact Hrun'|exact Hsame].
Defined.

(** X4.  Row padding of the luma plane is never read: two calls that
    return, on states whose luma planes differ only at indices
    [y*yRowStride + x] with [width <= x < yRowStride] and whose chroma
    planes agree, leave the same value in the slot of every pixel. *)
Theorem padding_ignored
    env yBuffer uBuffer vBuffer outBuffer srcY srcU srcV dst
    width height yRowStride uvRowStride uvPixelStride st1 st1' st2 st2' :
  resolves env yBuffer uBuffer vBuffer outBuffer srcY srcU srcV dst →
  disjoint_out srcY srcU srcV dst →
  convertYuvToRgb env yBuffer uBuffer vBuffer
    width height yRowStride uvRowStride uvPixelStride outBuffer st1 = Some st1' →
  convertYuvToRgb env yBuffer uBuffer vBuffer
    width height yRowStride uvRowStride uvPixelStride outBuffer st2 = Some st2' →
  (∀ i, load (heap st1) srcY i ≠ load (heap st2) srcY i →
        ∃ y x, width ≤ x < yRowStride ∧ i = y * yRowStride + x) →
  (∀ i, load (heap st1) srcU i = load (heap st2) srcU i) →
  (∀ i, load (heap st1) srcV i = load (heap st2) srcV i) →
  ∀ x y, 0 ≤ x < width → 0 ≤ y < height →
    load (heap st1') dst (y * width + x) = load (heap st2') dst (y * width + x).
Proof.
  intros Hres Hdis Hrun1 Hrun2 HY HU HV x y Hx Hy.
  apply (convert_pixel_agree env env yBuffer uBuffer vBuffer outBuffer
           yBuffer uBuffer vBuffer outBuffer
           srcY srcU srcV dst srcY srcU srcV dst
           width height yRowStride uvRowStride uvPixelStride
           Hres Hres Hdis Hdis st1 st1' st2 st2'); try done.
  destruct (decide (load (heap st1) srcY (y * yRowStride + x)
                    = load (heap st2) srcY (y * yRowStride + x)))
    as [Heq|Hne]; [done|].
  destruct (HY _ Hne) as (y0 & x0 & Hx0 & Hidx).
  destruct (row_major_inj yRowStride y x y0 x0) as [_ ->]; [lia|lia|done|lia].
Qed.

Lemma padding_ignored_witness :
  ∃ st1' st2',
    convertYuvToRgb direct_env 1 2 3 2 2 3 1 1 4 (padded_state 255 7) = Some st1' ∧
    convertYuvToRgb direct_env 1 2 3 2 2 3 1 1 4 (padded_state 0 99) = Some st2' ∧
    load (heap st1') (Ptr 4 0) (1 * 2 + 1) = load (heap st2') (Ptr 4 0) (1 * 2 + 1).
Proof.
  pose (st1' := default neutral_state
     (convertYuvToRgb direct_env 1 2 3 2 2 3 1 1 4 (padded_state 255 7))).
  pose (st2' := default neutral_state
     (convertYuvToRgb direct_env 1 2 3 2 2 3 1 1 4 (padded_state 0 99))).
  assert (Hrun1 : convertYuvToRgb direct_env 1 2 3 2 2 3 1 1 4
                    (padded_state 255 7) = Some st1')
    by (vm_compute; reflexivity).
  assert (Hrun2 : convertYuvToRgb direct_env 1 2 3 2 2 3 1 1 4
                    (padded_state 0 99) = Some st2')
    by (vm_compute; reflexivity).
  exists st1', st2'. split; [exact Hrun1|]. split; [exact Hrun2|].
  apply (padding_ignored direct_env 1 2 3 4 (Ptr 1 0) (Ptr 2 0) (Ptr 3 0)
           (Ptr 4 0) 2 2 3 1 1 (padded_state 255 7) st1' (padded_state 0 99) st2');
    [by repeat split | by repeat split | exact Hrun1 | exact Hrun2
    | | intros i; reflexivity | intros i; reflexivity | lia | lia].
  intros i Hne.
  destruct (decide (i = 2)) as [->|H2]; [exists 0, 2; lia|].
  destruct (decide (i = 5)) as [->|H5]; [exists 1, 2; lia|].
  exfalso. apply Hne. unfold load. cbn.
  case_decide; [|done].
  destruct (Z.to_nat (0 + i)) as [|[|[|[|[|[|n]]]]]] eqn:En;
    [done|done|lia|done|done|lia|done].
Defined.

(** X5.  Chroma is shared by 2x2 blocks: in a call that returns, two
    pixels with the same halved coordinates and the same luma sample get the
    same value. *)
Theorem block_shares_chroma
    env yBuffer uBuffer vBuffer outBuffer srcY srcU srcV dst
    width height yRowStride uvRowStride uvPixelStride st st' x y x' y' :
  resolves env yBuffer uBuffer vBuffer outBuffer srcY srcU srcV dst →
  disjoint_out srcY srcU srcV dst →
  convertYuvToRgb env yBuffer uBuffer vBuffer
    width height yRowStride uvRowStride uvPixelStride outBuffer st = Some st' →
  0 ≤ x < width → 0 ≤ y < height → 0 ≤ x' < width → 0 ≤ y' < height →
  x / 2 = x' / 2 → y / 2 = y' / 2 →
  load (heap st) srcY (y * yRowStride + x)
  = load (heap st) srcY (y' * yRowStride + x') →
  load (heap st') dst (y * width + x) = load (heap st') dst (y' * width + x').
Proof.
  intros Hres Hdis Hrun Hx Hy Hx' Hy' Hxx Hyy HY.
  destruct (convert_pixel_value _ _ _ _ _ _ _ _ _ _ _ _ _ _ Hres Hdis
              st st' x y Hrun Hx Hy) as (a & b & c & Ha & Hb & Hc & ->).
  destruct (convert_pixel_value _ _ _ _ _ _ _ _ _ _ _ _ _ _ Hres Hdis
              st st' x' y' Hrun Hx' Hy') as (a' & b' & c' & Ha' & Hb' & Hc' & ->).
  rewrite <- Hxx, <- Hyy in Hb', Hc'. congruence.
Qed.

(** In the 4x4 frame, pixels (2,0), (3,0), (2,1), (3,1) have luma 60 and
    share the second chroma pair. *)
Lemma block_shares_chroma_witness :
  ∃ st',
    convertYuvToRgb direct_env 1 2 3 4 4 4 2 1 4 reddish_state = Some st' ∧
    load (heap st') (Ptr 4 0) (0 * 4 + 2) = load (heap st') (Ptr 4 0) (1 * 4 + 3).
Proof.
  pose (st' := default neutral_state
                 (convertYuvToRgb direct_env 1 2 3 4 4 4 2 1 4 reddish_state)).
  assert (Hrun : convertYuvToRgb direct_env 1 2 3 4 4 4 2 1 4 reddish_state
                 = Some st') by (vm_compute; reflexivity).
  exists st'. split; [exact Hrun|].
  apply (block_shares_chroma direct_env 1 2 3 4 (Ptr 1 0) (Ptr 2 0) (Ptr 3 0)
           (Ptr 4 0) 4 4 4 2 1 reddish_state st' 2 0 3 1);
    [by repeat split | by repeat split | exact Hrun | lia | lia | lia | lia
    | reflexivity | reflexivity | reflexivity].
Defined.

(** ** The colour transform: monotonicity, packing, defined arithmetic *)

Lemma trunc_spec_mono num den v w :
  0 ≤ num → 0 < den → v ≤ w → trunc_spec num den v ≤ trunc_spec num den w.
Proof.
  intros Hn Hd Hvw. unfold trunc_spec. apply Z.quot_le_mono; [done|nia].
Qed.

(** X6.  The channels are monotone in the samples: red does not decrease
    when [Y] and [V] do not, blue does not decrease when [Y] and [U] do not,
    green does not decrease when [Y] does not decrease and [U] and [V] do
    not increase.  Truncation and clamping never invert an order. *)
Theorem channels_monotone bY bU bV bY' bU' bV' :
  0 ≤ bY ≤ 255 → 0 ≤ bU ≤ 255 → 0 ≤ bV ≤ 255 →
  0 ≤ bY' ≤ 255 → 0 ≤ bU' ≤ 255 → 0 ≤ bV' ≤ 255 →
  bY ≤ bY' →
  (bV ≤ bV' → red (yuv_to_rgb bY bU bV) ≤ red (yuv_to_rgb bY' bU' bV')) ∧
  (bU ≤ bU' → blue (yuv_to_rgb bY bU bV) ≤ blue (yuv_to_rgb bY' bU' bV')) ∧
  (bU' ≤ bU → bV' ≤ bV →
   green (yuv_to_rgb bY bU bV) ≤ green (yuv_to_rgb bY' bU' bV')).
Proof.
  intros HY HU HV HY' HU' HV' Hle.
  rewrite !yuv_to_rgb_spec, !byte_mask_id by done. cbn [red green blue].
  unfold spec_R, spec_G, spec_B, clamp_spec.
  split; [|split].
  - intros Hv.
    pose proof (trunc_spec_mono 1402 1000 (bV - 128) (bV' - 128)). lia.
  - intros Hu.
    pose proof (trunc_spec_mono 1772 1000 (bU - 128) (bU' - 128)). lia.
  - intros Hu Hv.
    pose proof (trunc_spec_mono 344136 1000000 (bU' - 128) (bU - 128)).
    pose proof (trunc_spec_mono 714136 1000000 (bV' - 128) (bV - 128)). lia.
Qed.

Lemma channels_monotone_witness :
  red (yuv_to_rgb 10 0 100) ≤ red (yuv_to_rgb 20 255 200) ∧
  blue (yuv_to_rgb 10 40 100) ≤ blue (yuv_to_rgb 20 90 0) ∧
  green (yuv_to_rgb 10 200 200) ≤ green (yuv_to_rgb 20 100 100).
Proof.
  destruct (channels_monotone 10 0 100 20 255 200) as (HR & _); [lia..|].
  destruct (channels_monotone 10 40 100 20 90 0) as (_ & HB & _); [lia..|].
  destruct (channels_monotone 10 200 200 20 100 100) as (_ & _ & HG); [lia..|].
  split; [apply HR; lia|]. split; [apply HB; lia|apply HG; lia].
Defined.

(** X7.  Packing loses nothing: the four bytes of a packed pixel are
    [0xFF] and the three channels, so pixels packed from different colours
    differ. *)
Theorem pack_unpack R G B R' G' B' :
  0 ≤ R ≤ 255 → 0 ≤ G ≤ 255 → 0 ≤ B ≤ 255 →
  0 ≤ R' ≤ 255 → 0 ≤ G' ≤ 255 → 0 ≤ B' ≤ 255 →
  alpha_of (pack_argb (RGB R G B)) = 255 ∧
  red_of (pack_argb (RGB R G B)) = R ∧
  green_of (pack_argb (RGB R G B)) = G ∧
  blue_of (pack_argb (RGB R G B)) = B ∧
  (pack_argb (RGB R G B) = pack_argb (RGB R' G' B') →
   R = R' ∧ G = G' ∧ B = B').
Proof.
  intros HR HG HB HR' HG' HB'.
  unfold alpha_of, red_of, green_of, blue_of.
  rewrite pack_argb_alpha, pack_argb_red, pack_argb_green, pack_argb_blue
    by done.
  repeat (split; [done|]).
  intros Heq.
  pose proof (pack_argb_red R G B HR HG HB) as H1.
  pose proof (pack_argb_green R G B HR HG HB) as H2.
  pose proof (pack_argb_blue R G B HR HG HB) as H3.
  rewrite Heq in H1, H2, H3.
  rewrite pack_argb_red in H1 by done.
  rewrite pack_argb_green in H2 by done.
  rewrite pack_argb_blue in H3 by done.
  done.
Qed.

Lemma pack_unpack_witness :
  red_of (pack_argb (RGB 1 2 3)) = 1 ∧ green_of (pack_argb (RGB 1 2 3)) = 2 ∧
  blue_of (pack_argb (RGB 1 2 3)) = 3 ∧
  pack_argb (RGB 1 2 3) ≠ pack_argb (RGB 3 2 1).
Proof.
  destruct (pack_unpack 1 2 3 3 2 1) as (_ & HR & HG & HB & Hinj); [lia..|].
  split; [exact HR|]. split; [exact HG|]. split; [exact HB|].
  intros Heq. destruct (Hinj Heq) as (H13 & _). discriminate H13.
Defined.

Instance cast_defined_dec f : Decision (cast_defined f).
Proof. destruct f; cbn; apply _. Defined.

(** X8.  The arithmetic of lines 46 to 54, whatever the three cells
    hold: each of the four products is a finite [float] whose cast fits an
    [int]; the sums and differences fit an [int]; the shifts [R << 16] and
    [G << 8] fit an [int].  The constant [0xFF << 24] does not: its value
    4278190080 is above [INT_MAX], and the code relies on the 32-bit
    pattern of that value read as an [int], which is [-2^24].  With that
    reading the or-expression fits an [int] and its conversion to
    [uint32_t] is the packed pixel. *)
Theorem channel_arithmetic_defined bY bU bV :
  let Y := Z.land bY 255 in
  let U := Z.land bU 255 - 128 in
  let V := Z.land bV 255 - 128 in
  let c := yuv_to_rgb bY bU bV in
  cast_defined (F32.mul c1_402 (F32.of_int V)) ∧
  cast_defined (F32.mul c0_344136 (F32.of_int U)) ∧
  cast_defined (F32.mul c0_714136 (F32.of_int V)) ∧
  cast_defined (F32.mul c1_772 (F32.of_int U)) ∧
  in_int (Y + trunc_mul c1_402 V) ∧
  in_int (Y - trunc_mul c0_344136 U) ∧
  in_int (Y - trunc_mul c0_344136 U - trunc_mul c0_714136 V) ∧
  in_int (Y + trunc_mul c1_772 U) ∧
  in_int (Z.shiftl (red c) 16) ∧
  in_int (Z.shiftl (green c) 8) ∧
  ¬ in_int (Z.shiftl 0xFF 24) ∧
  wrap_int (Z.shiftl 0xFF 24) = - 2 ^ 24 ∧
  in_int (Z.lor (Z.lor (Z.lor (wrap_int (Z.shiftl 0xFF 24))
                              (Z.shiftl (red c) 16))
                       (Z.shiftl (green c) 8)) (blue c)) ∧
  to_uint32 (Z.lor (Z.lor (Z.lor (wrap_int (Z.shiftl 0xFF 24))
                                 (Z.shiftl (red c) 16))
                          (Z.shiftl (green c) 8)) (blue c))
  = pack_argb c.
Proof.
  intros Y U V c.
  pose proof (byte_mask_range bU). pose proof (byte_mask_range bV).
  assert (HU : -128 ≤ U ≤ 127) by (subst U; lia).
  assert (HV : -128 ≤ V ≤ 127) by (subst V; lia).
  assert (Hcast : ∀ v, -128 ≤ v ≤ 127 →
            cast_defined (F32.mul c1_402 (F32.of_int v)) ∧
            cast_defined (F32.mul c0_344136 (F32.of_int v)) ∧
            cast_defined (F32.mul c0_714136 (F32.of_int v)) ∧
            cast_defined (F32.mul c1_772 (F32.of_int v))).
  { intros v Hv.
    pose (P := λ v,
      bool_decide (cast_defined (F32.mul c1_402 (F32.of_int v))) &&
      bool_decide (cast_defined (F32.mul c0_344136 (F32.of_int v))) &&
      bool_decide (cast_defined (F32.mul c0_714136 (F32.of_int v))) &&
      bool_decide (cast_defined (F32.mul c1_772 (F32.of_int v)))).
    assert (HP : P v = true)
      by (apply chroma_range_ind; [vm_compute; reflexivity | exact Hv]).
    unfold P in HP.
    repeat (apply andb_prop in HP; destruct HP as [HP ?]).
    split; [|split; [|split]]; by apply (proj1 (bool_decide_eq_true _)). }
  destruct (Hcast U HU) as (_ & ? & _ & ?).
  destruct (Hcast V HV) as (? & _ & ? & _).
  destruct (raw_channels_in_int bY bU bV) as (? & ? & ? & ?).
  destruct (yuv_to_rgb_range bY bU bV) as (HR & HG & HB).
  fold c in HR, HG, HB.
  repeat (split; [done|]).
  assert (Hwrap : wrap_int (Z.shiftl 0xFF 24) = - 2 ^ 24) by reflexivity.
  rewrite Hwrap.
  destruct c as [R G B]. cbn [red green blue] in *.
  split; [|split].
  - rewrite !Z.shiftl_mul_pow2 by lia.
    unfold in_int, INT_MIN, INT_MAX. lia.
  - rewrite !Z.shiftl_mul_pow2 by lia.
    unfold in_int, INT_MIN, INT_MAX. lia.
  - split; [vm_compute; intros [_ Hle]; by apply Hle|].
    split; [done|]. split; [|done].
    rewrite lor_argb_signed by done.
    unfold in_int, INT_MIN, INT_MAX. lia.
Qed.

(** ** Splitting a frame by rows *)

Lemma load_ptr_add m p k i : load m (ptr_add p k) i = load m p (k + i).
Proof.
  unfold load, ptr_add. cbn.
  by replace (ofs p + k + i) with (ofs p + (k + i)) by lia.
Qed.

(** An index between two [int] values is an [int]. *)
Lemma in_int_between a b c : in_int a → in_int c → a ≤ b ≤ c ∨ c ≤ b ≤ a → in_int b.
Proof. unfold in_int. lia. Qed.

Section RowSplit.

Variables (srcY srcU srcV dst : ptr).
Variables (width yRowStride uvRowStride uvPixelStride : Z).
Variable h1 : Z.
Hypothesis h1_nonneg : 0 ≤ h1.
Hypothesis h1_even : h1 mod 2 = 0.

(** The buffers from row [h1] on. *)
Local Abbreviation srcY2 := (ptr_add srcY (h1 * yRowStride)).
Local Abbreviation srcU2 := (ptr_add srcU (h1 / 2 * uvRowStride)).
Local Abbreviation srcV2 := (ptr_add srcV (h1 / 2 * uvRowStride)).
Local Abbreviation dst2 := (ptr_add dst (h1 * width)).

Lemma uvIdx_shift y x :
  0 ≤ y → 0 ≤ x →
  h1 / 2 * uvRowStride + uvIdx_of uvRowStride uvPixelStride y x
  = uvIdx_of uvRowStride uvPixelStride (y + h1) x.
Proof.
  intros Hy Hx. unfold uvIdx_of. rewrite !Z.quot_div_nonneg by lia.
  assert ((y + h1) / 2 = y / 2 + h1 / 2) as ->
    by (Z.to_euclidean_division_equations; lia).
  lia.
Qed.

(** Pixel [(x, y)] of the lower part is defined when pixel [(x, y + h1)]
    of the whole frame is. *)
Lemma pixel_defined_shift m y x :
  0 ≤ y → 0 ≤ x < width →
  pixel_defined srcY srcU srcV dst width yRowStride uvRowStride uvPixelStride
    m (y + h1) x →
  pixel_defined srcY2 srcU2 srcV2 dst2 width yRowStride uvRowStride
    uvPixelStride m y x.
Proof.
  intros Hy Hx ((Hi1 & Hi2 & Hi3 & Hi4 & Hi5) & HY & HU & HV & Ho1 & Ho2 & HO).
  unfold pixel_defined, idx_in_int.
  rewrite !load_ptr_add, uvIdx_shift by lia.
  unfold yIdx_of in *.
  replace (h1 * yRowStride + (y * yRowStride + x))
    with ((y + h1) * yRowStride + x) by lia.
  replace (h1 * width + (y * width + x)) with ((y + h1) * width + x) by lia.
  assert (Hq : Z.quot (y + h1) 2 = Z.quot y 2 + h1 / 2).
  { rewrite !Z.quot_div_nonneg by lia.
    Z.to_euclidean_division_equations; lia. }
  assert (0 ≤ Z.quot y 2) by (rewrite Z.quot_div_nonneg by lia;
                              Z.to_euclidean_division_equations; lia).
  assert (0 ≤ h1 / 2) by (Z.to_euclidean_division_equations; lia).
  assert (0 ≤ Z.quot x 2) by (rewrite Z.quot_div_nonneg by lia;
                              Z.to_euclidean_division_equations; lia).
  assert (Hz : in_int 0) by (unfold in_int, INT_MIN, INT_MAX; lia).
  assert (Hx' : in_int x).
  { apply (in_int_between 0 x ((y + h1) * width + x)); [done|done|nia]. }
  assert (HyS : in_int (y * yRowStride)).
  { apply (in_int_between 0 _ ((y + h1) * yRowStride)); [done|done|].
    destruct (Z.le_gt_cases 0 yRowStride); [left|right]; nia. }
  assert (HuvS : in_int (Z.quot y 2 * uvRowStride)).
  { apply (in_int_between 0 _ (Z.quot (y + h1) 2 * uvRowStride));
      [done|done|]. rewrite Hq.
    destruct (Z.le_gt_cases 0 uvRowStride); [left|right]; nia. }
  assert (HyI : in_int (y * yRowStride + x)).
  { apply (in_int_between x _ ((y + h1) * yRowStride + x)); [done|done|].
    destruct (Z.le_gt_cases 0 yRowStride); [left|right]; nia. }
  assert (HuvI : in_int (uvIdx_of uvRowStride uvPixelStride y x)).
  { unfold uvIdx_of in *.
    apply (in_int_between (Z.quot x 2 * uvPixelStride) _
             (Z.quot (y + h1) 2 * uvRowStride + Z.quot x 2 * uvPixelStride));
      [done|done|]. rewrite Hq.
    destruct (Z.le_gt_cases 0 uvRowStride); [left|right]; nia. }
  assert (HoS : in_int (y * width)).
  { apply (in_int_between 0 _ ((y + h1) * width)); [done|done|left; nia]. }
  assert (HoI : in_int (y * width + x)).
  { apply (in_int_between x _ ((y + h1) * width + x)); [done|done|left; nia]. }
  done.
Qed.

(** The value of pixel [(x, y)] of the lower part is the value of pixel
    [(x, y + h1)] of the whole frame. *)
Lemma pixel_argb_shift m y x v v' :
  0 ≤ y → 0 ≤ x →
  pixel_argb srcY2 srcU2 srcV2 yRowStride uvRowStride uvPixelStride m y x
  = Some v →
  pixel_argb srcY srcU srcV yRowStride uvRowStride uvPixelStride m (y + h1) x
  = Some v' →
  v = v'.
Proof.
  intros Hy Hx (_ & a & b & c & Ha & Hb & Hc & ->)%pixel_argb_Some
    (_ & a' & b' & c' & Ha' & Hb' & Hc' & ->)%pixel_argb_Some.
  rewrite !load_ptr_add, ?uvIdx_shift in * by lia.
  unfold yIdx_of in *.
  replace (h1 * yRowStride + (y * yRowStride + x))
    with ((y + h1) * yRowStride + x) in Ha by lia.
  congruence.
Qed.

End RowSplit.

Lemma same_cells_refl m : same_cells m m.
Proof. by intros q j. Qed.

Lemma convert_loops_row_split srcY srcU srcV dst
    width yRowStride uvRowStride uvPixelStride h1 h2 st st' :
  disjoint_out srcY srcU srcV dst →
  0 ≤ h1 → h1 mod 2 = 0 → 0 ≤ h2 →
  convert_loops srcY srcU srcV dst width (h1 + h2)
    yRowStride uvRowStride uvPixelStride st = Some st' →
  ∃ st1 st2,
    convert_loops srcY srcU srcV dst width h1
      yRowStride uvRowStride uvPixelStride st = Some st1 ∧
    convert_loops (ptr_add srcY (h1 * yRowStride))
      (ptr_add srcU (h1 / 2 * uvRowStride))
      (ptr_add srcV (h1 / 2 * uvRowStride))
      (ptr_add dst (h1 * width)) width h2
      yRowStride uvRowStride uvPixelStride st1 = Some st2 ∧
    same_cells (heap st2) (heap st').
Proof.
  intros Hdis Hh1 Heven Hh2 Hrun.
  assert (Hdef : frame_defined srcY srcU srcV dst width (h1 + h2)
                   yRowStride uvRowStride uvPixelStride (heap st))
    by (apply convert_loops_defined; by eexists).
  destruct (proj2 (convert_loops_defined srcY srcU srcV dst width h1
                     yRowStride uvRowStride uvPixelStride st)) as [st1 Hrun1].
  { intros y x Hy Hx. apply Hdef; lia. }
  pose proof (convert_loops_shape _ _ _ _ _ _ _ _ _ _ _ Hrun1) as Hshape1.
  destruct (proj2 (convert_loops_defined (ptr_add srcY (h1 * yRowStride))
                     (ptr_add srcU (h1 / 2 * uvRowStride))
                     (ptr_add srcV (h1 / 2 * uvRowStride))
                     (ptr_add dst (h1 * width)) width h2
                     yRowStride uvRowStride uvPixelStride st1)) as [st2 Hrun2].
  { apply (frame_defined_shape _ _ _ _ _ _ _ _ _ (heap st)).
    - intros q j. symmetry. apply Hshape1.
    - intros y x Hy Hx. apply pixel_defined_shift; [done|done|lia|done|].
      apply Hdef; lia. }
  exists st1, st2. split; [done|]. split; [done|].
  destruct (decide (width ≤ 0)) as [Hw|Hw].
  { rewrite convert_loops_empty in Hrun, Hrun1, Hrun2 by (left; lia).
    injection Hrun as <-. injection Hrun1 as <-. injection Hrun2 as <-.
    apply same_cells_refl. }
  assert (Hdis2 : disjoint_out (ptr_add srcY (h1 * yRowStride))
                    (ptr_add srcU (h1 / 2 * uvRowStride))
                    (ptr_add srcV (h1 / 2 * uvRowStride))
                    (ptr_add dst (h1 * width))) by exact Hdis.
  apply convert_loops_Inv in Hrun as [Hf Hr Hd _]; [|done|lia].
  apply convert_loops_Inv in Hrun1 as [Hf1 Hr1 Hd1 _]; [|done|lia].
  apply convert_loops_Inv in Hrun2 as [Hf2 Hr2 Hd2 _]; [|done|lia].
  rewrite Z.max_r in Hr, Hd, Hr1, Hd1, Hr2, Hd2 by lia.
  cbn [blk ptr_add] in Hf2.
  apply (same_cells_block _ _ dst).
  { intros b Hb. by rewrite Hf2, Hf1, Hf. }
  intros j.
  assert (Hj2 : ∀ m, load m dst j = load m (ptr_add dst (h1 * width))
                                      (j - h1 * width)).
  { intros m. rewrite load_ptr_add. f_equal. lia. }
  rewrite (Hj2 (heap st2)).
  destruct (decide (0 ≤ j < (h1 + h2) * width)) as [Hin|Hout].
  - destruct (decide (j < h1 * width)) as [Htop|Hbot].
    + rewrite Hr2, <- Hj2 by lia.
      destruct (slot_decompose width j) as (Hdec & Hy & Hx); [lia..|].
      rewrite Hdec.
      destruct (Hd1 (j / width) (j mod width)) as (v1 & Hv1 & ->);
        [done|done|lia|].
      destruct (Hd (j / width) (j mod width)) as (v & Hv & ->);
        [done|done|lia|].
      congruence.
    + destruct (slot_decompose width (j - h1 * width)) as (Hdec & Hy & Hx);
        [lia..|].
      remember ((j - h1 * width) / width) as y eqn:Ey.
      remember ((j - h1 * width) mod width) as x eqn:Ex.
      clear Ey Ex.
      assert (j = (y + h1) * width + x) as -> by lia.
      replace ((y + h1) * width + x - h1 * width) with (y * width + x) by lia.
      destruct (Hd2 y x) as (v2 & Hv2 & ->); [done|done|lia|].
      destruct (Hd (y + h1) x) as (v & Hv & ->); [lia|done|lia|].
      f_equal.
      rewrite (px_frame _ _ _ _ _ _ _ Hdis2 st st1) in Hv2 by exact Hf1.
      by apply (pixel_argb_shift srcY srcU srcV yRowStride uvRowStride
                  uvPixelStride h1 Hh1 Heven (heap st) y x); [|lia|..].
  - rewrite Hr2, <- Hj2 by lia. rewrite Hr1, Hr by lia. done.
Qed.

(** X9.  A frame can be converted in two parts.  When a call on
    [h1 + h2] rows returns, with [h1] even, [0 <= h1] and [0 <= h2], and
    the output lies in a block of its own, the call on the first [h1] rows
    returns, then so does the call on the [h2] rows below them through
    buffers advanced by [h1] luma rows, [h1/2] chroma rows and [h1] output
    rows, and the heap they leave holds the same cells as the heap of the
    single call. *)
Theorem row_split
    env yBuffer uBuffer vBuffer outBuffer
    yBuffer2 uBuffer2 vBuffer2 outBuffer2 srcY srcU srcV dst
    width yRowStride uvRowStride uvPixelStride h1 h2 st st' :
  resolves env yBuffer uBuffer vBuffer outBuffer srcY srcU srcV dst →
  resolves env yBuffer2 uBuffer2 vBuffer2 outBuffer2
    (ptr_add srcY (h1 * yRowStride))
    (ptr_add srcU (h1 / 2 * uvRowStride))
    (ptr_add srcV (h1 / 2 * uvRowStride))
    (ptr_add dst (h1 * width)) →
  disjoint_out srcY srcU srcV dst →
  0 ≤ h1 → h1 mod 2 = 0 → 0 ≤ h2 →
  convertYuvToRgb env yBuffer uBuffer vBuffer
    width (h1 + h2) yRowStride uvRowStride uvPixelStride outBuffer st = Some st' →
  ∃ st1 st2,
    convertYuvToRgb env yBuffer uBuffer vBuffer
      width h1 yRowStride uvRowStride uvPixelStride outBuffer st = Some st1 ∧
    convertYuvToRgb env yBuffer2 uBuffer2 vBuffer2
      width h2 yRowStride uvRowStride uvPixelStride outBuffer2 st1 = Some st2 ∧
    same_cells (heap st2) (heap st').
Proof.
  intros Hres Hres2 Hdis Hh1 Heven Hh2 Hrun.
  rewrite (convert_resolved _ _ _ _ _ _ _ _ _ _ _ _ _ _ Hres) in Hrun.
  destruct (convert_loops_row_split _ _ _ _ _ _ _ _ _ _ _ _
              Hdis Hh1 Heven Hh2 Hrun) as (st1 & st2 & Hrun1 & Hrun2 & Hsame).
  exists st1, st2.
  rewrite (convert_resolved _ _ _ _ _ _ _ _ _ _ _ _ _ _ Hres).
  rewrite (convert_resolved _ _ _ _ _ _ _ _ _ _ _ _ _ _ Hres2).
  done.
Qed.

(** The 4x4 frame in two halves of two rows. *)
Lemma row_split_witness :
  ∃ st' st1 st2,
    convertYuvToRgb sliced_env 1 2 3 4 (2 + 2) 4 2 1 4 reddish_state = Some st' ∧
    convertYuvToRgb sliced_env 1 2 3 4 2 4 2 1 4 reddish_state = Some st1 ∧
    convertYuvToRgb sliced_env 5 6 7 4 2 4 2 1 8 st1 = Some st2 ∧
    same_cells (heap st2) (heap st').
Proof.
  pose (st' := default neutral_state
     (convertYuvToRgb sliced_env 1 2 3 4 (2 + 2) 4 2 1 4 reddish_state)).
  assert (Hrun : convertYuvToRgb sliced_env 1 2 3 4 (2 + 2) 4 2 1 4
                   reddish_state = Some st') by (vm_compute; reflexivity).
  destruct (row_split sliced_env 1 2 3 4 5 6 7 8
              (Ptr 1 0) (Ptr 2 0) (Ptr 3 0) (Ptr 4 0) 4 4 2 1 2 2
              reddish_state st') as (st1 & st2 & Hrun1 & Hrun2 & Hsame);
    [by repeat split | by repeat split | by repeat split
    | lia | reflexivity | lia | exact Hrun |].
  exists st', st1, st2.
  split; [exact Hrun|]. split; [exact Hrun1|]. split; [exact Hrun2|exact Hsame].
Defined.

(** ** Any call that returns; neutral chroma *)

(** X10.  Whatever the geometry, a call that returns from four addresses
    with the output in a block of its own has stored exactly once into each
    of the [max(0,width) * max(0,height)] first output slots, in order, and
    nowhere else; the value of each store is the value its slot holds at the
    end, which is the pixel converted from the three samples of the initial
    planes; the call has emitted no log entry and has left the other output
    cells, the other blocks and the three planes as they were. *)
Theorem convert_frame_returning
    env yBuffer uBuffer vBuffer outBuffer srcY srcU srcV dst
    width height yRowStride uvRowStride uvPixelStride st st' :
  resolves env yBuffer uBuffer vBuffer outBuffer srcY srcU srcV dst →
  disjoint_out srcY srcU srcV dst →
  convertYuvToRgb env yBuffer uBuffer vBuffer
    width height yRowStride uvRowStride uvPixelStride outBuffer st = Some st' →
  let n := Z.max 0 width * Z.max 0 height in
  ∃ out new,
    trace st' = trace st ++ new ∧
    new = slot_stores dst out n ∧
    (∀ k, 0 ≤ k < n → load (heap st') dst k = Some (out k)) ∧
    (∀ x y, 0 ≤ x < width → 0 ≤ y < height →
       ∃ bY bU bV,
         load (heap st) srcY (y * yRowStride + x) = Some bY ∧
         load (heap st) srcU (y / 2 * uvRowStride + x / 2 * uvPixelStride)
         = Some bU ∧
         load (heap st) srcV (y / 2 * uvRowStride + x / 2 * uvPixelStride)
         = Some bV ∧
         out (y * width + x) = pack_argb (yuv_to_rgb bY bU bV)) ∧
    writes_of new = (λ k, (blk dst, ofs dst + k)) <$> seqZ 0 n ∧
    logs_of new = [] ∧
    (∀ b, b ≠ blk dst → heap st' !! b = heap st !! b) ∧
    (∀ j, ¬ (0 ≤ j < n) → load (heap st') dst j = load (heap st) dst j) ∧
    (∀ i, load (heap st') srcY i = load (heap st) srcY i) ∧
    (∀ i, load (heap st') srcU i = load (heap st) srcU i) ∧
    (∀ i, load (heap st') srcV i = load (heap st) srcV i).
Proof.
  intros Hres Hdis Hrun n.
  destruct (decide (width ≤ 0 ∨ height ≤ 0)) as [Hempty|Hpos].
  - rewrite (convert_empty _ _ _ _ _ _ _ _ _ _ _ _ _ _ Hres st Hempty) in Hrun.
    injection Hrun as <-. exists (λ _, 0), [].
    assert (n = 0) as -> by lia.
    rewrite app_nil_r. split; [done|]. split; [done|].
    split; [intros k Hk; lia|]. split; [intros x y Hx Hy; lia|].
    by repeat split.
  - assert (n = width * height) as -> by lia.
    destruct (convert_Inv env yBuffer uBuffer vBuffer outBuffer
                srcY srcU srcV dst width height
                yRowStride uvRowStride uvPixelStride Hres Hdis st st')
      as [Hf Hr _ _]; [lia|lia|done|].
    pose proof (convert_pixel_value env yBuffer uBuffer vBuffer outBuffer
                  srcY srcU srcV dst width height
                  yRowStride uvRowStride uvPixelStride Hres Hdis st st' )
      as Hval.
    rewrite (convert_resolved _ _ _ _ _ _ _ _ _ _ _ _ _ _ Hres) in Hrun.
    assert (Hw0 : 0 < width) by lia.
    destruct (convert_loops_stores _ _ _ _ _ _ _ _ _ st st' Hw0 Hrun)
      as (out & Htr & Hout).
    replace (Z.max 0 height * width) with (width * height) in Htr, Hout by lia.
    exists out, (slot_stores dst out (width * height)).
    split; [done|]. split; [done|]. split; [done|].
    split.
    { intros x y Hx Hy.
      destruct (Hval x y) as (bY & bU & bV & HY & HU & HV & Hload);
        [by rewrite (convert_resolved _ _ _ _ _ _ _ _ _ _ _ _ _ _ Hres)
        |done|done|].
      exists bY, bU, bV. repeat (split; [done|]).
      rewrite Hout in Hload by nia. by injection Hload. }
    rewrite writes_of_slot_stores, logs_of_slot_stores.
    destruct Hdis as (? & ? & ?).
    repeat (split; [done|]).
    repeat split; intros i; apply load_ext, Hf; congruence.
Qed.

(** A frame with [yRowStride] smaller than [width], which is not a valid
    call: the call returns, the last slot holds the gray pixel and the luma
    plane is as before. *)
Lemma convert_frame_returning_witness :
  ∃ st',
    convertYuvToRgb direct_env 1 2 3 2 2 1 1 1 4 (gray_state 9 9 9 9 []) = Some st' ∧
    writes_of (trace st')
    = [(4%positive, 0); (4%positive, 1); (4%positive, 2); (4%positive, 3)] ∧
    load (heap st') (Ptr 4 0) 3 = Some 0xFF101010 ∧
    load (heap st') (Ptr 1 0) 2 = Some 16.
Proof.
  pose (st' := default neutral_state
     (convertYuvToRgb direct_env 1 2 3 2 2 1 1 1 4 (gray_state 9 9 9 9 []))).
  assert (Hrun : convertYuvToRgb direct_env 1 2 3 2 2 1 1 1 4
                   (gray_state 9 9 9 9 []) = Some st')
    by (vm_compute; reflexivity).
  destruct (convert_frame_returning direct_env 1 2 3 4
              (Ptr 1 0) (Ptr 2 0) (Ptr 3 0) (Ptr 4 0) 2 2 1 1 1
              (gray_state 9 9 9 9 []) st')
    as (out & new & Ht & _ & Hout & Hpix & Hw & _ & _ & _ & HY & _);
    [by repeat split | by repeat split | exact Hrun |].
  exists st'. split; [exact Hrun|]. split; [|split].
  - rewrite Ht, writes_of_app, Hw. reflexivity.
  - rewrite Hout by lia.
    destruct (Hpix 1 1) as (bY & bU & bV & HbY & HbU & HbV & Hv); [lia|lia|].
    vm_compute in HbY, HbU, HbV.
    injection HbY as <-. injection HbU as <-. injection HbV as <-.
    change (1 * 2 + 1) with 3 in Hv. rewrite Hv. reflexivity.
  - rewrite HY. reflexivity.
Defined.

(** X11.  Neutral chroma gives gray: in a call that returns, a pixel whose
    two chroma samples are 128 and whose luma sample is the byte [Y] gets
    the value [0xFF000000 + Y * 0x010101], that is alpha [0xFF] and three
    channels equal to [Y]. *)
Theorem gray_pixel
    env yBuffer uBuffer vBuffer outBuffer srcY srcU srcV dst
    width height yRowStride uvRowStride uvPixelStride st st' x y bY :
  resolves env yBuffer uBuffer vBuffer outBuffer srcY srcU srcV dst →
  disjoint_out srcY srcU srcV dst →
  convertYuvToRgb env yBuffer uBuffer vBuffer
    width height yRowStride uvRowStride uvPixelStride outBuffer st = Some st' →
  0 ≤ x < width → 0 ≤ y < height →
  load (heap st) srcY (y * yRowStride + x) = Some bY →
  load (heap st) srcU (y / 2 * uvRowStride + x / 2 * uvPixelStride) = Some 128 →
  load (heap st) srcV (y / 2 * uvRowStride + x / 2 * uvPixelStride) = Some 128 →
  0 ≤ bY ≤ 255 →
  load (heap st') dst (y * width + x) = Some (0xFF000000 + bY * 0x010101).
Proof.
  intros Hres Hdis Hrun Hx Hy HY HU HV HbY.
  destruct (convert_pixel_value _ _ _ _ _ _ _ _ _ _ _ _ _ _ Hres Hdis
              st st' x y Hrun Hx Hy) as (a & b & c & Ha & Hb & Hc & ->).
  assert (a = bY) as -> by congruence.
  assert (b = 128) as -> by congruence.
  assert (c = 128) as -> by congruence.
  rewrite yuv_to_rgb_spec, !byte_mask_id by lia.
  change (128 - 128) with 0.
  destruct (spec_neutral bY HbY) as (-> & -> & ->).
  rewrite pack_argb_sum by done. f_equal. lia.
Qed.

Lemma gray_pixel_witness :
  ∃ st',
    convertYuvToRgb direct_env 1 2 3 4 4 4 2 1 4 reddish_state = Some st' ∧
    load (heap st') (Ptr 4 0) (1 * 4 + 2) = Some 0xFF3C3C3C.
Proof.
  pose (st' := default neutral_state
                 (convertYuvToRgb direct_env 1 2 3 4 4 4 2 1 4 reddish_state)).
  assert (Hrun : convertYuvToRgb direct_env 1 2 3 4 4 4 2 1 4 reddish_state
                 = Some st') by (vm_compute; reflexivity).
  exists st'. split; [exact Hrun|].
  apply (gray_pixel direct_env 1 2 3 4 (Ptr 1 0) (Ptr 2 0) (Ptr 3 0) (Ptr 4 0)
           4 4 4 2 1 reddish_state st' 2 1 60);
    [by repeat split | by repeat split | exact Hrun | lia | lia
    | reflexivity | reflexivity | reflexivity | lia].
Defined.
